(** * NAUOSLGet: the e-mail parser of [src/email_parser.py]

    A shallow embedding of the part of [email_parser.py] that turns the
    dictionary of retrieved e-mails into the range of issue numbers handed
    to the extractor:

    - [parse_email_bodies]  (lines 329-362), the text normaliser;
    - [get_issue_num_list]  (lines 252-326), sender dispatch, the search for
      issue-creation links, the comparison with the subject tag, [sorted];
    - the part of [main]    (lines 46-55) that looks the sender up, cleans
      the dictionary, calls [get_issue_num_list] and builds
      [[int(l[0]), int(l[-1])]].

    and, around them,

    - [get_email_obj_list], [get_email_content_dict],
      [get_cleaned_email_dict], [get_connection_obj], [create_extractor_input],
      [exe_extractor] and [main] as a whole, over a mailbox and a mail
      server given as functions and a list of the calls made outside
      the program;
    - [file_io.py]: [read_json_to_dict], [write_dict_to_json],
      [write_merged_dict_to_json] with [__merge_dicts_recursive], and
      [read_txt_line];
    - [schema.py]: [_clean_str].

    Model conventions.
    - A Python [str] is a [string]; its characters are the code points
      0..255 (Latin-1), the range of [ascii].
    - A Python exception is a value [Raise e] of the type [outcome].
    - The dictionary of e-mails, keyed by the integers in insertion order,
      is an association list; an e-mail is a record whose body is the text
      ([string]) before normalisation and the list of fragments afterwards.
    - The IMAP protocol, the parsing of JSON text and of command-line
      arguments, and what the extractor does are outside the embedding. *)

From Stdlib Require Import Bool Arith ZArith List Ascii String Lia.
From Stdlib Require Import Permutation Sorted.
From Stdlib Require OrdersEx.
Import ListNotations.

Local Open Scope string_scope.
Local Open Scope list_scope.

(* ================================================================== *)
(** * Python values: exceptions and outcomes *)

(** The built-in exceptions that the embedded code can raise. *)
Inductive exn : Type :=
| TypeError    (* list.append called with a number of arguments other than one *)
| IndexError   (* indexing an empty list *)
| ValueError   (* int() of a text that is not a number *)
| KeyError.    (* a key that a dictionary does not have *)

Inductive outcome (A : Type) : Type :=
| Ok (a : A)
| Raise (e : exn).

Arguments Ok {A} a.
Arguments Raise {A} e.

Definition bind {A B : Type} (m : outcome A) (k : A -> outcome B) : outcome B :=
  match m with
  | Ok a => k a
  | Raise e => Raise e
  end.

Notation "x <- m ;; k" := (bind m (fun x => k))
  (at level 61, m at next level, right associativity).

(* ================================================================== *)
(** * Characters and strings *)

Module Str.

Definition code (c : ascii) : nat := nat_of_ascii c.

(** [str.isprintable] on one character, for the code points 0..255: the
    control characters (C0, DEL, C1), the no-break space (a separator
    other than the ASCII space) and the soft hyphen (a format character)
    are not printable. *)
Definition isprintable (c : ascii) : bool :=
  let n := code c in
  ((32 <=? n) && negb ((127 <=? n) && (n <=? 160)) && negb (n =? 173))%nat.

(** [\d] of the [re] module on the code points 0..255: the ten ASCII
    digits (the superscript digits of Latin-1 are not decimal digits). *)
Definition isdigit (c : ascii) : bool :=
  let n := code c in ((48 <=? n) && (n <=? 57))%nat.

Definition newline : ascii := "010"%char.
Definition slash : ascii := "/"%char.

Definition is_empty (s : string) : bool :=
  match s with
  | EmptyString => true
  | String _ _ => false
  end.

Fixpoint forallb (p : ascii -> bool) (s : string) : bool :=
  match s with
  | EmptyString => true
  | String c s' => p c && forallb p s'
  end.

Fixpoint filter (p : ascii -> bool) (s : string) : string :=
  match s with
  | EmptyString => EmptyString
  | String c s' => if p c then String c (filter p s') else filter p s'
  end.

(** ["".join(l)] *)
Definition join (l : list string) : string := fold_right append "" l.

(** [needle in hay] on two [str]. *)
Fixpoint str_in (needle hay : string) : bool :=
  String.prefix needle hay ||
  match hay with
  | EmptyString => false
  | String _ hay' => str_in needle hay'
  end.

(** The text after the last ["/"] of [s], when [s] has a ["/"]. *)
Fixpoint after_last_slash (s : string) : option string :=
  match s with
  | EmptyString => None
  | String c s' =>
      match after_last_slash s' with
      | Some t => Some t
      | None => if Ascii.eqb c slash then Some s' else None
      end
  end.

(** [s.rsplit("/", 1)[1]]: the list has a second element only when [s]
    has a ["/"]; otherwise the index is out of range. *)
Definition rsplit_slash_1 (s : string) : outcome string :=
  match after_last_slash s with
  | Some t => Ok t
  | None => Raise IndexError
  end.

(** The longest text of digits that CPython's [int] converts: the
    value the interpreter starts with
    ([sys.int_info.default_max_str_digits]). *)
Definition max_str_digits : Z := 4300.

(** [int(s)] for a text of ASCII digits. Python's [int] also accepts
    surrounding white space, a sign and underscores between digits; the
    texts that reach it here are runs of digits (see
    [get_issue_num_list_digits]). A text of more than [max_str_digits]
    digits, leading zeros included, is refused with [ValueError]. *)
Fixpoint int_acc (acc : Z) (s : string) : option Z :=
  match s with
  | EmptyString => Some acc
  | String c s' =>
      if isdigit c
      then int_acc (10 * acc + Z.of_nat (code c - 48)) s'
      else None
  end.

Definition int (s : string) : outcome Z :=
  match s with
  | EmptyString => Raise ValueError
  | String _ _ =>
      match int_acc 0 s with
      | Some z =>
          if (max_str_digits <? Z.of_nat (String.length s))%Z
          then Raise ValueError
          else Ok z
      | None => Raise ValueError
      end
  end.

End Str.

(* ================================================================== *)
(** * The fragment of [re] used by the program *)

Module Re.

(** One position of a pattern: a literal character, [\d], or [.]. *)
Inductive cset : Type :=
| CChar (a : ascii)
| CDigit
| CDot.

Definition cset_mem (cs : cset) (c : ascii) : bool :=
  match cs with
  | CChar a => Ascii.eqb a c
  | CDigit => Str.isdigit c
  | CDot => negb (Ascii.eqb c Str.newline)
  end.

(** The patterns of the program are sequences of single positions,
    greedy repetitions [x+] and the anchor [$]. *)
Inductive item : Type :=
| One (cs : cset)
| Plus (cs : cset)
| Eos.

Definition pattern : Type := list item.

(** [$] without [re.MULTILINE]: at the end of the text, or just before
    a newline that ends the text. *)
Definition at_end (s : string) : bool :=
  match s with
  | EmptyString => true
  | String c EmptyString => Ascii.eqb c Str.newline
  | String _ (String _ _) => false
  end.

(** A greedy repetition [cs+] followed by the rest of the pattern, whose
    matcher is [k]: take one more character of [cs] while that leads to
    a match, and give it back to [k] when it does not. *)
Fixpoint plus_loop (cs : cset) (k : string -> option string) (s : string)
  : option string :=
  match s with
  | String c s' =>
      if cset_mem cs c
      then match plus_loop cs k s' with
           | Some m => Some (String c m)
           | None => option_map (String c) (k s')
           end
      else None
  | EmptyString => None
  end.

(** The backtracking matcher anchored at the start of [s]; the result is
    the text matched. *)
Fixpoint match_here (p : pattern) (s : string) {struct p} : option string :=
  match p with
  | [] => Some EmptyString
  | One cs :: p' =>
      match s with
      | String c s' =>
          if cset_mem cs c
          then option_map (String c) (match_here p' s')
          else None
      | EmptyString => None
      end
  | Plus cs :: p' => plus_loop cs (match_here p') s
  | Eos :: p' => if at_end s then match_here p' s else None
  end.

(** [re.search(p, s)]: the match at the leftmost position that has one;
    the result stands for [m.group()], [None] for no match. *)
Fixpoint search (p : pattern) (s : string) : option string :=
  match match_here p s with
  | Some m => Some m
  | None =>
      match s with
      | EmptyString => None
      | String _ s' => search p s'
      end
  end.

(** A run of literal characters. *)
Fixpoint lit (s : string) : pattern :=
  match s with
  | EmptyString => []
  | String c s' => One (CChar c) :: lit s'
  end.

End Re.

(* ================================================================== *)
(** * The data of the program *)

(** One value of the dictionary built by [get_email_content_dict]: the
    keys ["date"], ["subject"] and ["body"]. [B] is the type of the body:
    [string] as retrieved, [list string] once normalised. *)
Record email (B : Type) : Type := Email {
  date : string;
  subject : string;
  body : B
}.

Arguments Email {B} _ _ _.
Arguments date {B} _.
Arguments subject {B} _.
Arguments body {B} _.

(** The dictionary of e-mails, in insertion order. *)
Definition email_dict (B : Type) : Type := list (Z * email B).

Definition values {B : Type} (d : email_dict B) : list (email B) := map snd d.
Definition keys {B : Type} (d : email_dict B) : list Z := map fst d.

(** The two entries of the ["parser"] configuration that the embedded code
    reads: [cfg_dict["repo"]] and [cfg_dict["sender"]]. *)
Record cfg_dict : Type := Cfg {
  repo : string;
  sender : string
}.

(* ================================================================== *)
(** * [parse_email_bodies] *)

(** The loop over the characters of one body (lines 345-357), with the
    two variables it updates. *)
Fixpoint scan_body (chars : string) (filtered_body_list : list string)
  (filtered_body : string) : list string * string :=
  match chars with
  | EmptyString => (filtered_body_list, filtered_body)
  | String char rest =>
      if Str.isprintable char
      then scan_body rest filtered_body_list (filtered_body ++ String char "")
      else if negb (Str.is_empty filtered_body)
           then scan_body rest (filtered_body_list ++ [filtered_body]) ""
           else scan_body rest filtered_body_list filtered_body
  end.

(** What line 360 stores in the entry: [filtered_body_list] as the loop
    left it. *)
Definition parse_body (b : string) : list string :=
  fst (scan_body b [] "").

Definition parse_email (e : email string) : email (list string) :=
  Email (date e) (subject e) (parse_body (body e)).

Definition parse_email_bodies (d : email_dict string) : email_dict (list string) :=
  map (fun ke => (fst ke, parse_email (snd ke))) d.

(* ================================================================== *)
(** * [get_issue_num_list] *)

(** [r"\(Issue \#\d+\)"] *)
Definition subject_issue_str : Re.pattern :=
  Re.lit "(Issue #" ++ [Re.Plus Re.CDigit] ++ Re.lit ")".

(** The characters of a repository identifier [owner/name] on GitHub:
    letters, digits, [-], [_], [.] and the [/] between owner and name. *)
Definition repo_char (c : ascii) : bool :=
  let n := Str.code c in
  (((48 <=? n) && (n <=? 57)) || ((65 <=? n) && (n <=? 90)) ||
   ((97 <=? n) && (n <=? 122)) || (n =? 45) || (n =? 95) || (n =? 46) ||
   (n =? 47))%nat.

Definition valid_repo (r : string) : bool := Str.forallb repo_char r.

(** The text of [cfg_repo] read as a piece of a pattern, as the f-string of
    line 277 makes it: [.] stands for any character but a newline, the
    other characters of a [valid_repo] stand for themselves. This is the
    pattern that [re] compiles only for a [valid_repo]: in another name a
    character such as [|], [(], [*] or [\] is an operator of the pattern,
    and the statements on [issue_url] below are made for a [valid_repo]. *)
Fixpoint repo_pattern (r : string) : Re.pattern :=
  match r with
  | EmptyString => []
  | String c r' =>
      (if Ascii.eqb c "."%char then Re.One Re.CDot else Re.One (Re.CChar c))
      :: repo_pattern r'
  end.

(** [rf"https://github.com/{cfg_repo}/issues/\d+$"] *)
Definition issue_url (cfg_repo : string) : Re.pattern :=
  Re.lit "https://github" ++ [Re.One Re.CDot] ++ Re.lit "com/" ++
  repo_pattern cfg_repo ++ Re.lit "/issues/" ++ [Re.Plus Re.CDigit; Re.Eos].

(** The list comprehension of lines 286-290. *)
Fixpoint body_list_of (url : Re.pattern) (entry_body : list string)
  : outcome (list string) :=
  match entry_body with
  | [] => Ok []
  | string :: rest =>
      match Re.search url string with
      | Some _ =>
          num <- Str.rsplit_slash_1 string ;;
          nums <- body_list_of url rest ;;
          Ok (num :: nums)
      | None => body_list_of url rest
      end
  end.

(** [issue_list.append( *issue_num)]: [list.append] takes exactly one
    argument. *)
Definition append_star (issue_list issue_num : list string)
  : outcome (list string) :=
  match issue_num with
  | [num] => Ok (issue_list ++ [num])
  | _ => Raise TypeError
  end.

(** The body of the loop over the e-mails (lines 286-318). *)
Definition github_entry (cfg_repo : string) (issue_list : list string)
  (entry : email (list string)) : outcome (list string) :=
  body_list <- body_list_of (issue_url cfg_repo) (body entry) ;;
  match body_list with
  | [] => Ok issue_list
  | _ :: _ =>
      match Re.search subject_issue_str (subject entry) with
      | None => Ok issue_list
      | Some group =>
          let issue_num :=
            List.filter (fun num => Str.str_in num group) body_list in
          append_star issue_list issue_num
      end
  end.

(** [for entry in email_dict.values(): ...] *)
Fixpoint github_loop (cfg_repo : string) (entries : list (email (list string)))
  (issue_list : list string) : outcome (list string) :=
  match entries with
  | [] => Ok issue_list
  | entry :: rest =>
      issue_list' <- github_entry cfg_repo issue_list entry ;;
      github_loop cfg_repo rest issue_list'
  end.

(** [sorted] on a list of [str]: a stable sort by [<] on texts, which
    compares code point by code point. *)
Fixpoint insert_sorted (x : string) (l : list string) : list string :=
  match l with
  | [] => [x]
  | y :: l' => if String.ltb y x then y :: insert_sorted x l' else x :: l
  end.

Definition sorted (l : list string) : list string :=
  fold_right insert_sorted [] l.

(** The branch of the [if]/[elif]/[else] of lines 274-324 that a value of
    [cfg_dict["sender"]] selects. *)
Inductive sender_rule : Type :=
| GithubRule   (* "github" in cfg_sender *)
| JiraRule     (* "jira" in cfg_sender: pass *)
| NoRule.      (* else: pass *)

Definition rule_of_sender (cfg_sender : string) : sender_rule :=
  if Str.str_in "github" cfg_sender then GithubRule
  else if Str.str_in "jira" cfg_sender then JiraRule
  else NoRule.

Definition get_issue_num_list (email_dict : email_dict (list string))
  (cfg : cfg_dict) : outcome (list string) :=
  let cfg_repo := repo cfg in
  let cfg_sender := sender cfg in
  issue_list <-
    match rule_of_sender cfg_sender with
    | GithubRule => github_loop cfg_repo (values email_dict) []
    | JiraRule => Ok []
    | NoRule => Ok []
    end ;;
  Ok (sorted issue_list).

(* ================================================================== *)
(** * [main], lines 49-55 *)

(** [[int(issue_list[0]), int(issue_list[-1])]] *)
Definition issue_range (issue_list : list string) : outcome (Z * Z) :=
  match issue_list with
  | [] => Raise IndexError
  | first :: _ =>
      lo <- Str.int first ;;
      hi <- Str.int (last issue_list first) ;;
      Ok (lo, hi)
  end.

(** The keys of [SENDER_DICT] (line 24). *)
Definition SENDER_DICT_keys : list string := ["github"; "jira"].

Definition in_SENDER_DICT (key : string) : bool :=
  existsb (String.eqb key) SENDER_DICT_keys.

(** Lines 46-55. [email_content_dict] is what the session and
    [get_email_content_dict] give for the configured sender; the look-up
    [SENDER_DICT[parser_cfg["sender"]]] of line 46 comes before the e-mails
    are retrieved. Then [parse_email_bodies] (through
    [get_cleaned_email_dict]), [get_issue_num_list] and line 55; the result
    is the range passed to [exe_extractor]. *)
Definition main (email_content_dict : email_dict string) (parser_cfg : cfg_dict)
  : outcome (Z * Z) :=
  if in_SENDER_DICT (sender parser_cfg)
  then
    let cleaned := parse_email_bodies email_content_dict in
    issue_list <- get_issue_num_list cleaned parser_cfg ;;
    issue_range issue_list
  else Raise KeyError.

(* ================================================================== *)
(** * Notions used in the statements *)

(** [email_dict[k]] *)
Fixpoint lookup {B : Type} (k : Z) (d : email_dict B) : option (email B) :=
  match d with
  | [] => None
  | (k', e) :: d' => if Z.eqb k k' then Some e else lookup k d'
  end.

(** A fragment as the normaliser promises it: not empty, printable
    characters only. *)
Definition printable_fragment (f : string) : Prop :=
  f <> "" /\ Str.forallb Str.isprintable f = true.

(** [needle] occurs in [hay]. *)
Definition occurs_in (needle hay : string) : Prop :=
  exists pre post, hay = (pre ++ needle ++ post)%string.

(** The text has a tag [(Issue #N)], [N] a non-empty run of digits. *)
Definition has_issue_tag (s : string) : Prop :=
  exists pre n post,
    s = (pre ++ "(Issue #" ++ n ++ ")" ++ post)%string /\
    n <> "" /\ Str.forallb Str.isdigit n = true.

(** The fragment is a candidate of the list comprehension: the pattern of
    the issue-creation link is found in it. *)
Definition creation_link (cfg_repo fragment : string) : bool :=
  match Re.search (issue_url cfg_repo) fragment with
  | Some _ => true
  | None => false
  end.

(** The fragment gives a candidate that is kept for the subject tag
    [group]: the link pattern is found in it, and the text after its last
    slash occurs in the tag. *)
Definition kept_for (cfg_repo group fragment : string) : bool :=
  creation_link cfg_repo fragment &&
  match Str.after_last_slash fragment with
  | Some num => Str.str_in num group
  | None => false
  end.

Definition not_slash (c : ascii) : bool := negb (Ascii.eqb c Str.slash).

Definition not_newline (c : ascii) : bool := negb (Ascii.eqb c Str.newline).

(** An issue number as text: a non-empty run of digits. *)
Definition digits (t : string) : Prop :=
  t <> "" /\ Str.forallb Str.isdigit t = true.

(** A candidate as the list comprehension leaves it: a run of digits,
    then at most the newline that [$] lets pass. *)
Definition digits_nl (t : string) : Prop :=
  exists ds e,
    t = (ds ++ e)%string /\ digits ds /\
    (e = "" \/ e = String Str.newline "").

Definition digit_or_newline (c : ascii) : bool :=
  Str.isdigit c || Ascii.eqb c Str.newline.

(** The item cannot take an opening parenthesis. *)
Definition no_paren_item (i : Re.item) : bool :=
  match i with
  | Re.One cs | Re.Plus cs => negb (Re.cset_mem cs "("%char)
  | Re.Eos => false
  end.

(** The order of texts, code point by code point, that [sorted] uses. *)
Definition text_le (a b : string) : Prop := String.leb a b = true.

Module Re_sem.
Import Re.

(** The texts a pattern stands for: [denotes p m rest] when [m],
    followed in the subject text by [rest], is built as [p] says. *)
Fixpoint denotes (p : pattern) (m rest : string) : Prop :=
  match p with
  | [] => m = ""
  | One cs :: p' =>
      exists c m', m = String c m' /\ cset_mem cs c = true /\
                   denotes p' m' rest
  | Plus cs :: p' =>
      exists r m', m = (r ++ m')%string /\ r <> "" /\
                   Str.forallb (cset_mem cs) r = true /\
                   denotes p' m' rest
  | Eos :: p' => at_end (m ++ rest)%string = true /\ denotes p' m rest
  end.

End Re_sem.

(* ================================================================== *)
(** * Sample messages *)

Module Sample.

Local Open Scope string_scope.

Definition nl : string := String Str.newline "".

Definition cfg : cfg_dict := Cfg "acme/widget" "github".

Definition link (n : string) : string :=
  ("https://github.com/acme/widget/issues/" ++ n)%string.

Definition footer (n : string) : string :=
  ("-- " ++ nl ++ "Reply to this email directly or view it on GitHub:" ++ nl ++
   link n ++ nl)%string.

(** A notification of the creation of issue [n]. *)
Definition created (title n : string) : email string :=
  Email "Mon, 02 Nov 2026 10:00:00 +0000"
        ("[acme/widget] " ++ title ++ " (Issue #" ++ n ++ ")")
        ("The widget misbehaves." ++ nl ++ nl ++ footer n).

(** (a) creation link and subject tag agree on issue 10. *)
Definition msg_a : email string := created "Crash on start" "10".

(** (b) nothing in the body matches. *)
Definition msg_b : email string :=
  Email "Mon, 02 Nov 2026 11:00:00 +0000" "Your weekly digest"
        ("Nothing happened this week." ++ nl).

(** (c) a creation link for issue 11 under a subject tagged 12. *)
Definition msg_c : email string :=
  Email "Mon, 02 Nov 2026 12:00:00 +0000"
        "[acme/widget] Slow build (Issue #12)"
        ("Looks like a duplicate." ++ nl ++ nl ++ footer "11").

Definition three_messages : email_dict string :=
  [(0%Z, msg_a); (1%Z, msg_b); (2%Z, msg_c)].

(** Two notifications, for the issues 9 and 10. *)
Definition nine_and_ten : email_dict string :=
  [(0%Z, created "Typo in README" "9"); (1%Z, created "Crash on start" "10")].

(** A cleaned message whose body names issue 4 next to the link of
    issue 42. *)
Definition msg_two_links : email (list string) :=
  Email "Mon, 02 Nov 2026 13:00:00 +0000"
        "[acme/widget] Crash on resize (Issue #42)"
        ["Probably related to https://github.com/acme/widget/issues/4";
         "Reply to this email directly or view it on GitHub:";
         link "42"].

(** A cleaned message whose title quotes the tag of another issue. *)
Definition msg_two_tags : email (list string) :=
  Email "Mon, 02 Nov 2026 13:00:00 +0000"
        "[acme/widget] Regression of (Issue #7) (Issue #42)"
        ["Reply to this email directly or view it on GitHub:";
         link "42"].

(** A cleaned message with the link of issue 42 alone. *)
Definition msg_42 : email (list string) :=
  Email "Mon, 02 Nov 2026 13:00:00 +0000"
        "[acme/widget] Crash on resize (Issue #42)"
        ["The widget crashes when resized.";
         "Reply to this email directly or view it on GitHub:";
         link "42"].

End Sample.

(* ================================================================== *)
(** * JSON values and Python dictionaries ([file_io.py]) *)

(** What [json.loads] returns and [json.dump] accepts. A dictionary is
    the list of its items in insertion order, the order in which
    [json.dump] writes them; as [json.loads] returns them, dictionaries
    share no part with one another. A float is kept as its text. The
    keys of a dictionary are texts, as they are in all that [json.loads]
    returns. A Python dictionary can have other keys (numbers, [True],
    [None]), which [json.dump] writes as texts: a dictionary with such
    keys is not a [pydict], and what is said of [out_dict : pydict] is
    said of dictionaries whose keys are texts at every depth. *)
#[local] Set Warnings "-register-all".

Inductive json : Type :=
| JNull
| JBool (b : bool)
| JInt (z : Z)
| JFloat (repr : string)
| JStr (s : string)
| JList (l : list json)
| JDict (d : list (string * json)).

#[local] Set Warnings "register-all".

Definition pydict : Type := list (string * json).

(** Every dictionary met on the way down through dictionaries has
    distinct keys. *)
Fixpoint distinct_keys (v : json) : Prop :=
  match v with
  | JDict d =>
      NoDup (map fst d) /\
      (fix all (d : list (string * json)) : Prop :=
         match d with
         | [] => True
         | (_, x) :: d' => distinct_keys x /\ all d'
         end) d
  | _ => True
  end.

Module Dict.

(** [d[key]], [None] when [key not in d]. *)
Fixpoint get {V : Type} (key : string) (d : list (string * V)) : option V :=
  match d with
  | [] => None
  | (k, v) :: d' => if String.eqb key k then Some v else get key d'
  end.

(** [d[key] = value]: the value of a key that [d] has is replaced where
    it stands, a new key goes to the end. *)
Fixpoint set {V : Type} (key : string) (value : V) (d : list (string * V))
  : list (string * V) :=
  match d with
  | [] => [(key, value)]
  | (k, v) :: d' =>
      if String.eqb key k then (k, value) :: d' else (k, v) :: set key value d'
  end.

Definition keys {V : Type} (d : list (string * V)) : list string := map fst d.

Definition mem {V : Type} (key : string) (d : list (string * V)) : bool :=
  match get key d with
  | Some _ => true
  | None => false
  end.

(** [d |= other] *)
Definition update {V : Type} (d other : list (string * V)) : list (string * V) :=
  fold_left (fun acc kv => set (fst kv) (snd kv) acc) other d.

(** The keys of a dictionary are distinct. *)
Definition wf {V : Type} (d : list (string * V)) : Prop := NoDup (keys d).

End Dict.

(** The loop of [__merge_dicts_recursive] (lines 96-111), with the
    merge of one value as a parameter: [merge_value value (Dict.get key
    base)] is what [base_dict[key]] holds after the body of the loop. *)
Fixpoint merge_loop (merge_value : json -> option json -> json)
  (add_dict base_dict : pydict) : pydict :=
  match add_dict with
  | [] => base_dict
  | (key, value) :: rest =>
      merge_loop merge_value rest
        (Dict.set key (merge_value value (Dict.get key base_dict)) base_dict)
  end.

(** The test of lines 100-104 and its two branches: two dictionaries are
    merged by the recursive call, which changes [base_dict[key]] where it
    stands; in every other case the value of [add_dict] is assigned. *)
Fixpoint merge_value (add_value : json) (base_value : option json) : json :=
  match add_value, base_value with
  | JDict add_dict, Some (JDict base_dict) =>
      JDict (merge_loop merge_value add_dict base_dict)
  | _, _ => add_value
  end.

Definition merge_dicts_recursive (add_dict base_dict : pydict) : pydict :=
  merge_loop merge_value add_dict base_dict.

(** The exceptions of the rest of the program: the built-in ones of
    [exn], and those of the libraries. *)
Inductive exc : Type :=
| Builtin (e : exn)
| AttributeError          (* an attribute of None *)
| JSONDecodeError         (* json.loads of a text that is not JSON *)
| SystemExit (status : Z) (* sys.exit(status) *).

Inductive result (A : Type) : Type :=
| Done (a : A)
| Fail (e : exc).

Arguments Done {A} a.
Arguments Fail {A} e.

Definition rbind {A B : Type} (m : result A) (k : A -> result B) : result B :=
  match m with
  | Done a => k a
  | Fail e => Fail e
  end.

Definition of_outcome {A : Type} (o : outcome A) : result A :=
  match o with
  | Ok a => Done a
  | Raise e => Fail (Builtin e)
  end.







(* ================================================================== *)
(** * White space ([file_io.read_txt_line], [schema._clean_str]) *)

Module Txt.

(** [str.isspace] on one character, for the code points 0..255: tab to
    carriage return, the four separators 28..31, the space, the next-line
    control and the no-break space. *)
Definition isspace (c : ascii) : bool :=
  let n := Str.code c in
  (((9 <=? n) && (n <=? 13)) || ((28 <=? n) && (n <=? 32)) ||
   (n =? 133) || (n =? 160))%nat.

Definition carriage_return : ascii := "013"%char.

(** [s.lstrip] and [s.rstrip], for the characters that [p] takes. *)
Fixpoint lstrip_by (p : ascii -> bool) (s : string) : string :=
  match s with
  | EmptyString => EmptyString
  | String c s' => if p c then lstrip_by p s' else s
  end.

Fixpoint rstrip_by (p : ascii -> bool) (s : string) : string :=
  match s with
  | EmptyString => EmptyString
  | String c s' =>
      match rstrip_by p s' with
      | EmptyString => if p c then EmptyString else String c EmptyString
      | String _ _ as r => String c r
      end
  end.

Definition strip_by (p : ascii -> bool) (s : string) : string :=
  lstrip_by p (rstrip_by p s).

(** [s.strip()] *)
Definition strip (s : string) : string := strip_by isspace s.


(** [s.replace(c, "")] for a text [c] of one character. *)
Definition remove_char (c : ascii) (s : string) : string :=
  Str.filter (fun x => negb (Ascii.eqb x c)) s.



Definition is_line_end (c : ascii) : bool :=
  Ascii.eqb c Str.newline || Ascii.eqb c carriage_return.

(** The text neither starts nor ends with a white space character. *)
Definition trimmed (s : string) : Prop :=
  (forall c rest, s = String c rest -> isspace c = false) /\
  (forall init c, s = (init ++ String c "")%string -> isspace c = false).

End Txt.

(** [schema._clean_str]; [None] is Python's None. *)
Definition _clean_str (str_to_clean : option string) : string :=
  match str_to_clean with
  | None => "Nan"
  | Some EmptyString => "Nan"
  | Some s =>
      let output_str := Txt.remove_char Txt.carriage_return s in
      let output_str := Txt.remove_char Str.newline output_str in
      Txt.strip output_str
  end.


(* ================================================================== *)
(** * From the inbox to the dictionary of e-mails *)

(** An object of [email.message], by what the program reads of it:
    [msg["Date"]], [msg["subject"]], and for the plain part the text that
    [msg.get_body("plain").get_content()] returns, [None] when
    [get_body] returns None. A part whose [get_content()] raises (the
    [LookupError] of a charset that Python does not know) is neither:
    a message with such a part is not a [message]. *)
Record message : Type := Message {
  hdr_date : string;
  hdr_subject : string;
  plain_part : option string
}.

(** The mailbox behind an open session: the positions that a search by
    sender returns, and what [fetch] gives for a position, [None] when
    [email_data[0]] is None. *)
Record imap_session : Type := Session {
  search_from : string -> list string;
  fetch : string -> option message
}.

Definition dquote : string := String (ascii_of_nat 34) EmptyString.

(** [SENDER_DICT] and [HOST_DICT] (lines 18-24). *)
Definition SENDER_DICT : list (string * string) :=
  [("github", (dquote ++ "Github" ++ dquote)%string);
   ("jira", (dquote ++ "Jira" ++ dquote)%string)].

Definition HOST_DICT : list (string * string) :=
  [("gmail", "imap.gmail.com");
   ("outlook", "outlook.office365.com");
   ("yahoo", "imap.mail.yahoo.com")].

(** [d[key]] with its [KeyError]. *)
Definition item {V : Type} (d : list (string * V)) (key : string) : result V :=
  match Dict.get key d with
  | Some v => Done v
  | None => Fail (Builtin KeyError)
  end.

(** [get_email_obj_list] (lines 213-249). *)
Fixpoint fetch_all (session : imap_session) (email_position_list : list string)
  : list message :=
  match email_position_list with
  | [] => []
  | uid :: rest =>
      match fetch session uid with
      | Some email_obj => email_obj :: fetch_all session rest
      | None => fetch_all session rest
      end
  end.

Definition get_email_obj_list (session : imap_session) (sender_str : string)
  : result (list message) :=
  rbind (item SENDER_DICT sender_str) (fun criterion =>
  Done (fetch_all session (search_from session criterion))).

(** [email_content_dict |= {index: entry}] *)
Fixpoint email_dict_set {B : Type} (index : Z) (entry : email B)
  (d : email_dict B) : email_dict B :=
  match d with
  | [] => [(index, entry)]
  | (k, e) :: d' =>
      if Z.eqb index k then (k, entry) :: d'
      else (k, e) :: email_dict_set index entry d'
  end.

(** The loop of [get_email_content_dict] (lines 197-208). On None,
    [get_content] is looked up on None: [AttributeError]. *)
Fixpoint content_loop (email_list : list message)
  (email_content_dict : email_dict string) (index : Z)
  : result (email_dict string) :=
  match email_list with
  | [] => Done email_content_dict
  | msg :: rest =>
      match plain_part msg with
      | None => Fail AttributeError
      | Some text =>
          content_loop rest
            (email_dict_set index (Email (hdr_date msg) (hdr_subject msg) text)
               email_content_dict)
            (index + 1)
      end
  end.

Definition get_email_content_dict (email_list : list message)
  : result (email_dict string) :=
  content_loop email_list [] 0.

(** [get_cleaned_email_dict] (lines 143-160). *)
Definition get_cleaned_email_dict (imap_session : imap_session) (sender : string)
  : result (email_dict (list string)) :=
  rbind (get_email_obj_list imap_session sender) (fun email_obj_list =>
  rbind (get_email_content_dict email_obj_list) (fun email_content_dict =>
  Done (parse_email_bodies email_content_dict))).

(* ================================================================== *)
(** * The configuration and the call of the extractor *)

(** The configuration read from the JSON file: the section ["parser"],
    whose values are texts, and the section ["extractor"]; [None] for a
    section that the file does not have. *)
Record cfg_metadict : Type := Metadict {
  parser_section : option (list (string * string));
  extractor_section : option json
}.

Definition section {A : Type} (s : option A) : result A :=
  match s with
  | Some a => Done a
  | None => Fail (Builtin KeyError)
  end.

(** What the program does to the world outside, in order; what it
    prints is left out. *)
Inductive event : Type :=
| MakeDirs (path : string)                      (* os.makedirs(path, exist_ok=True) *)
| WriteJson (out_dict : json) (out_path : string) (* file_io.write_dict_to_json *)
| System (command : string).                     (* os.system(command) *)

(** [create_extractor_input] (lines 65-80): the events, and the
    configuration as the call leaves it, since [|=] changes the section
    ["extractor"] where it stands. *)
Definition create_extractor_input (cfg : cfg_metadict)
  (issue_num_list : list Z) (out_path : string)
  : list event * result cfg_metadict :=
  match section (parser_section cfg) with
  | Fail e => ([], Fail e)
  | Done parser_cfg =>
  match section (extractor_section cfg) with
  | Fail e => ([], Fail e)
  | Done extractor_cfg =>
  match item parser_cfg "repo" with
  | Fail e => ([], Fail e)
  | Done cfg_repo =>
  match extractor_cfg with
  | JDict d =>
      let d' :=
        Dict.update d
          [("repo", JStr cfg_repo);
           ("range", JList (map JInt issue_num_list))] in
      ([WriteJson (JDict d') out_path],
       Done (Metadict (Some parser_cfg) (Some (JDict d'))))
  | _ => ([], Fail (Builtin TypeError))
  end end end end.

(** [exe_extractor] (lines 83-120). *)
Definition exe_extractor (cfg : cfg_metadict) (issue_list : list Z)
  : list event * result unit :=
  match section (parser_section cfg) with
  | Fail e => ([], Fail e)
  | Done parser_cfg =>
  match item parser_cfg "output_dir" with
  | Fail e => ([], Fail e)
  | Done dir =>
  match item parser_cfg "repo" with
  | Fail e => ([], Fail e)
  | Done cfg_repo =>
  match of_outcome (Str.rsplit_slash_1 cfg_repo) with
  | Fail e => ([], Fail e)
  | Done name =>
      let output_dir := (dir ++ "/" ++ name)%string in
      let cur_extractor_input := (output_dir ++ "/extractor_input.json")%string in
      match create_extractor_input cfg issue_list cur_extractor_input with
      | (written, Fail e) => (MakeDirs output_dir :: written, Fail e)
      | (written, Done _) =>
          match item parser_cfg "extractor_exe" with
          | Fail e => (MakeDirs output_dir :: written, Fail e)
          | Done extractor_exe =>
              ((MakeDirs output_dir :: written) ++
               [System ("python " ++ extractor_exe ++ " " ++
                        cur_extractor_input)%string],
               Done tt)
          end
      end
  end end end end.

(** The mail server: for a host, either no connection or what a login
    with an address and a password gives. *)
Definition mail_server : Type :=
  string -> result (string -> string -> result imap_session).

(** [get_connection_obj] (lines 163-182). *)
Definition get_connection_obj (server : mail_server)
  (cfg_dict : list (string * string)) : result imap_session :=
  rbind (item cfg_dict "host") (fun host =>
  rbind (item HOST_DICT host) (fun imap_domain =>
  rbind (server imap_domain) (fun login =>
  rbind (item cfg_dict "addr") (fun addr =>
  rbind (item cfg_dict "passwd") (fun passwd =>
  login addr passwd))))).

(** [main] as a whole (lines 33-62), from the configuration that
    [get_cfg_dict] read. *)
Definition main_run (server : mail_server) (cfg_metadict : cfg_metadict)
  : list event * result unit :=
  let range :=
    rbind (section (parser_section cfg_metadict)) (fun parser_cfg =>
    rbind (get_connection_obj server parser_cfg) (fun session =>
    rbind (item parser_cfg "sender") (fun sender_key =>
    rbind (item SENDER_DICT sender_key) (fun _ =>
    rbind (item parser_cfg "repo") (fun cfg_repo =>
    rbind (get_cleaned_email_dict session sender_key) (fun email_content_dict =>
    rbind (of_outcome (get_issue_num_list email_content_dict
                         (Cfg cfg_repo sender_key))) (fun issue_list =>
    of_outcome (issue_range issue_list)))))))) in
  match range with
  | Fail e => ([], Fail e)
  | Done (lo, hi) => exe_extractor cfg_metadict [lo; hi]
  end.

(** The dictionary that the loop of [get_email_content_dict] builds from
    [index] on, out of messages that all have a plain part. *)
Fixpoint numbered (index : Z) (email_list : list message) : email_dict string :=
  match email_list with
  | [] => []
  | msg :: rest =>
      match plain_part msg with
      | Some text =>
          (index, Email (hdr_date msg) (hdr_subject msg) text)
          :: numbered (index + 1) rest
      | None => numbered (index + 1) rest
      end
  end.

(** The keys 0, 1, ..., n - 1. *)
Definition first_keys (n : nat) : list Z := map Z.of_nat (seq 0 n).

(** The two loops end alike: both in [TypeError], or both with the same
    identifiers up to their order. *)
Definition alike (o1 o2 : outcome (list string)) : Prop :=
  match o1, o2 with
  | Ok l1, Ok l2 => Permutation l1 l2
  | Raise e1, Raise e2 => e1 = TypeError /\ e2 = TypeError
  | _, _ => False
  end.

(** A mailbox with three positions, the second of which gives no data,
    and what [get_cleaned_email_dict] makes of it. *)
Definition sample_inbox : imap_session :=
  Session
    (fun _ => ["1"; "2"; "3"])
    (fun uid =>
       if String.eqb uid "1" then
         Some (Message (date Sample.msg_a) (subject Sample.msg_a)
                       (Some (body Sample.msg_a)))
       else if String.eqb uid "3" then
         Some (Message (date Sample.msg_b) (subject Sample.msg_b)
                       (Some (body Sample.msg_b)))
       else None).

Definition sample_cleaned : email_dict (list string) :=
  parse_email_bodies [(0%Z, Sample.msg_a); (1%Z, Sample.msg_b)].

(** A server that accepts every login and opens [sample_inbox], and a
    configuration for it. *)
Definition sample_server : mail_server :=
  fun _ => Done (fun _ _ => Done sample_inbox).

Definition sample_metadict : cfg_metadict :=
  Metadict
    (Some [("host", "gmail"); ("addr", "dev@example.org"); ("passwd", "secret");
           ("sender", "github"); ("repo", "acme/widget");
           ("output_dir", "out"); ("extractor_exe", "extractor.py")])
    (Some (JDict [("state", JStr "open")])).

(* ================================================================== *)
(** * Strings: basic facts *)

Section StringFacts.

Local Open Scope string_scope.

Lemma append_nil_r (s : string) : s ++ "" = s.
Proof. induction s as [|c s IH]; simpl; [reflexivity | now rewrite IH]. Qed.

Lemma append_assoc (a b c : string) : (a ++ b) ++ c = a ++ (b ++ c).
Proof. induction a as [|x a IH]; simpl; [reflexivity | now rewrite IH]. Qed.

Lemma forallb_append (p : ascii -> bool) (a b : string) :
  Str.forallb p (a ++ b) = Str.forallb p a && Str.forallb p b.
Proof.
  induction a as [|x a IH]; simpl; [reflexivity|].
  now rewrite IH, andb_assoc.
Qed.

Lemma join_app (l1 l2 : list string) :
  Str.join (l1 ++ l2)%list = Str.join l1 ++ Str.join l2.
Proof.
  induction l1 as [|x l1 IH]; simpl; [reflexivity|].
  now rewrite IH, append_assoc.
Qed.

End StringFacts.

(* ================================================================== *)
(** * The normaliser *)

Section Normaliser.

Local Open Scope string_scope.

(** The loop keeps apart what it has stored and what it still holds:
    the stored fragments followed by the pending one are the printable
    characters read so far. *)
Lemma scan_body_content (chars : string) :
  forall l fb,
    Str.join (fst (scan_body chars l fb)) ++ snd (scan_body chars l fb) =
    Str.join l ++ fb ++ Str.filter Str.isprintable chars.
Proof.
  induction chars as [|c chars IH]; intros l fb; simpl.
  - now rewrite append_nil_r.
  - destruct (Str.isprintable c).
    + rewrite IH, append_assoc. reflexivity.
    + destruct fb as [|x fb]; simpl.
      * apply IH.
      * rewrite IH, join_app. simpl.
        now rewrite append_nil_r, append_assoc.
Qed.

Lemma scan_body_fragments (chars : string) :
  forall l fb,
    Forall printable_fragment l ->
    Str.forallb Str.isprintable fb = true ->
    Forall printable_fragment (fst (scan_body chars l fb)) /\
    Str.forallb Str.isprintable (snd (scan_body chars l fb)) = true.
Proof.
  induction chars as [|c chars IH]; intros l fb Hl Hfb; simpl.
  - split; assumption.
  - destruct (Str.isprintable c) eqn:Hc.
    + apply IH; [assumption|].
      rewrite forallb_append, Hfb. simpl. now rewrite Hc.
    + destruct fb as [|x fb]; simpl.
      * apply IH; assumption.
      * apply IH; [|reflexivity].
        apply Forall_app. split; [assumption|].
        constructor; [|constructor].
        split; [discriminate | assumption].
Qed.

(** Every fragment that [parse_body] returns is non-empty and
    printable. *)
Lemma parse_body_fragments (b : string) :
  Forall printable_fragment (parse_body b).
Proof.
  unfold parse_body.
  apply (scan_body_fragments b [] ""); [constructor | reflexivity].
Qed.

(** What [parse_body] returns, followed by the fragment the loop was
    still holding when the text ended, is the text without its
    non-printable characters. *)
Lemma parse_body_content (b : string) :
  Str.join (parse_body b) ++ snd (scan_body b [] "") =
  Str.filter Str.isprintable b.
Proof. unfold parse_body. now rewrite scan_body_content. Qed.

(** A text that ends with a non-printable character is kept whole. *)
Lemma parse_body_terminated (b : string) (c : ascii) :
  Str.isprintable c = false ->
  Str.join (parse_body (b ++ String c "")) = Str.filter Str.isprintable b.
Proof.
  intros Hc. unfold parse_body.
  assert (G : forall chars l fb,
    Str.join (fst (scan_body (chars ++ String c "") l fb)) =
    Str.join l ++ fb ++ Str.filter Str.isprintable chars).
  { induction chars as [|x chars IH]; intros l fb; simpl.
    - rewrite Hc. destruct fb; simpl.
      + now rewrite append_nil_r.
      + rewrite join_app. simpl. now rewrite !append_nil_r.
    - destruct (Str.isprintable x).
      + rewrite IH, append_assoc. reflexivity.
      + destruct fb as [|y fb]; simpl.
        * apply IH.
        * rewrite IH, join_app. simpl.
          now rewrite append_nil_r, append_assoc. }
  apply G.
Qed.

Lemma lookup_parse_email_bodies (d : email_dict string) (k : Z) :
  lookup k (parse_email_bodies d) = option_map parse_email (lookup k d).
Proof.
  induction d as [|[k' e] d IH]; simpl; [reflexivity|].
  destruct (Z.eqb k k'); [reflexivity | exact IH].
Qed.

Lemma keys_parse_email_bodies (d : email_dict string) :
  keys (parse_email_bodies d) = keys d.
Proof.
  unfold keys, parse_email_bodies. rewrite map_map. reflexivity.
Qed.

End Normaliser.

(* ================================================================== *)
(** * [in] on texts *)

Section Containment.

Local Open Scope string_scope.

Lemma prefix_occurs (n h : string) :
  String.prefix n h = true <-> exists post, h = n ++ post.
Proof.
  revert h. induction n as [|a n IH]; intros h.
  - split; [intros _; now exists h | intros _; destruct h; reflexivity].
  - destruct h as [|b h]; simpl.
    + split; [discriminate | intros [post H]; discriminate].
    + destruct (ascii_dec a b) as [->|Hab].
      * rewrite IH. split; intros [post H]; exists post; congruence.
      * split; [discriminate | intros [post H]; congruence].
Qed.

Lemma str_in_occurs (n h : string) :
  Str.str_in n h = true <-> occurs_in n h.
Proof.
  unfold occurs_in. induction h as [|b h IH].
  - cbn [Str.str_in]. rewrite orb_false_r, prefix_occurs. split.
    + intros [post H]. now exists "", post.
    + intros [pre [post H]]. destruct pre; [now exists post | discriminate].
  - cbn [Str.str_in]. rewrite orb_true_iff, IH, prefix_occurs. split.
    + intros [[post H] | [pre [post H]]].
      * now exists "", post.
      * exists (String b pre), post. simpl. now rewrite H.
    + intros [pre [post H]]. destruct pre as [|c pre].
      * left. now exists post.
      * right. exists pre, post. simpl in H. congruence.
Qed.

(** A text found inside another has only characters of the other. *)
Lemma str_in_forallb (p : ascii -> bool) (n h : string) :
  Str.str_in n h = true ->
  Str.forallb p h = true -> Str.forallb p n = true.
Proof.
  rewrite str_in_occurs. intros [pre [post ->]].
  rewrite !forallb_append, !andb_true_iff. tauto.
Qed.

End Containment.

(* ================================================================== *)
(** * The matcher finds only what the pattern stands for *)

Section Matcher.

Import Re Re_sem.
Local Open Scope string_scope.

Lemma plus_loop_sound (cs : cset) (k : string -> option string)
  (D : string -> string -> Prop) :
  (forall s m, k s = Some m -> exists rest, s = m ++ rest /\ D m rest) ->
  forall s m,
    plus_loop cs k s = Some m ->
    exists r m' rest,
      m = r ++ m' /\ r <> "" /\ Str.forallb (cset_mem cs) r = true /\
      s = m ++ rest /\ D m' rest.
Proof.
  intros Hk. induction s as [|c s IH]; intros m H; simpl in H.
  - discriminate.
  - destruct (cset_mem cs c) eqn:Hc; [|discriminate].
    destruct (plus_loop cs k s) as [m1|] eqn:Hm.
    + injection H as <-.
      destruct (IH m1 eq_refl) as (r & m' & rest & -> & Hr & Hall & -> & HD).
      exists (String c r), m', rest. simpl. rewrite Hc, Hall.
      repeat split; try assumption; try discriminate.
    + destruct (k s) as [m1|] eqn:Hks; [|discriminate].
      injection H as <-.
      destruct (Hk s m1 Hks) as (rest & -> & HD).
      exists (String c ""), m1, rest. simpl. rewrite Hc.
      repeat split; try assumption; discriminate.
Qed.

Lemma match_here_sound (p : pattern) :
  forall s m,
    match_here p s = Some m ->
    exists rest, s = m ++ rest /\ denotes p m rest.
Proof.
  induction p as [|[cs|cs|] p IH]; intros s m H; simpl in H.
  - injection H as <-. exists s. split; reflexivity.
  - destruct s as [|c s]; [discriminate|].
    destruct (cset_mem cs c) eqn:Hc; [|discriminate].
    destruct (match_here p s) as [m1|] eqn:Hm; [|discriminate].
    injection H as <-.
    destruct (IH s m1 Hm) as (rest & -> & HD).
    exists rest. split; [reflexivity|].
    simpl. exists c, m1. auto.
  - destruct (plus_loop_sound cs (match_here p) (denotes p) IH s m H)
      as (r & m' & rest & -> & Hr & Hall & -> & HD).
    exists rest. split; [reflexivity|].
    simpl. exists r, m'. auto.
  - destruct (at_end s) eqn:He; [|discriminate].
    destruct (IH s m H) as (rest & -> & HD).
    exists rest. split; [reflexivity|].
    simpl. auto.
Qed.

Lemma search_sound (p : pattern) :
  forall s m,
    search p s = Some m ->
    exists pre rest, s = pre ++ m ++ rest /\ denotes p m rest.
Proof.
  induction s as [|c s IH]; intros m H; simpl in H.
  - destruct (match_here p "") as [m1|] eqn:Hm; [|discriminate].
    injection H as <-.
    destruct (match_here_sound p "" m1 Hm) as (rest & E & HD).
    exists "", rest. auto.
  - destruct (match_here p (String c s)) as [m1|] eqn:Hm.
    + injection H as <-.
      destruct (match_here_sound p _ m1 Hm) as (rest & E & HD).
      exists "", rest. auto.
    + destruct (IH m H) as (pre & rest & -> & HD).
      exists (String c pre), rest. auto.
Qed.

Lemma denotes_app (p1 p2 : pattern) :
  forall m rest,
    denotes (p1 ++ p2)%list m rest ->
    exists m1 m2,
      m = m1 ++ m2 /\ denotes p1 m1 (m2 ++ rest) /\ denotes p2 m2 rest.
Proof.
  induction p1 as [|[cs|cs|] p1 IH]; intros m rest H; simpl in H.
  - exists "", m. simpl. auto.
  - destruct H as (c & m' & -> & Hc & H).
    destruct (IH _ _ H) as (m1 & m2 & -> & H1 & H2).
    exists (String c m1), m2.
    split; [reflexivity | split; [|assumption]].
    simpl. exists c, m1. auto.
  - destruct H as (r & m' & -> & Hr & Hall & H).
    destruct (IH _ _ H) as (m1 & m2 & -> & H1 & H2).
    exists (r ++ m1), m2.
    split; [now rewrite append_assoc|]. split; [|assumption].
    simpl. exists r, m1. auto.
  - destruct H as (He & H).
    destruct (IH _ _ H) as (m1 & m2 & -> & H1 & H2).
    exists m1, m2.
    split; [reflexivity | split; [|assumption]].
    simpl. split; [|assumption]. now rewrite <- append_assoc.
Qed.

Lemma denotes_one (cs : cset) (p : pattern) (m rest : string) :
  denotes (One cs :: p) m rest ->
  exists c m', m = String c m' /\ cset_mem cs c = true /\ denotes p m' rest.
Proof. exact (fun H => H). Qed.

Lemma denotes_lit (t : string) (p : pattern) :
  forall m rest,
    denotes (lit t ++ p)%list m rest ->
    exists m', m = t ++ m' /\ denotes p m' rest.
Proof.
  induction t as [|a t IH]; intros m rest H; simpl in H.
  - exists m. auto.
  - destruct H as (c & m1 & -> & Hc & H).
    apply Ascii.eqb_eq in Hc. subst c.
    destruct (IH _ _ H) as (m' & -> & H').
    exists m'. auto.
Qed.

Lemma at_end_cases (s : string) :
  at_end s = true -> s = "" \/ s = String Str.newline "".
Proof.
  destruct s as [|c [|d s]]; simpl; intros H; try discriminate.
  - now left.
  - right. apply Ascii.eqb_eq in H. now subst.
Qed.

(** What [subject_issue.group()] can be: a tag [(Issue #N)]. *)
Lemma subject_issue_group (s g : string) :
  search subject_issue_str s = Some g ->
  exists pre n post,
    s = pre ++ g ++ post /\ g = "(Issue #" ++ n ++ ")" /\
    n <> "" /\ Str.forallb Str.isdigit n = true.
Proof.
  intros H.
  destruct (search_sound _ _ _ H) as (pre & post & -> & HD).
  unfold subject_issue_str in HD.
  destruct (denotes_lit _ _ _ _ HD) as (m1 & -> & H1).
  cbn -[Ascii.eqb Str.isdigit] in H1.
  destruct H1 as (n & m2 & -> & Hn & Hall & c & m3 & -> & Hc & ->).
  apply Ascii.eqb_eq in Hc. subst c.
  exists pre, n, post. auto.
Qed.

Lemma search_subject_has_tag (s g : string) :
  search subject_issue_str s = Some g -> has_issue_tag s.
Proof.
  intros H.
  destruct (subject_issue_group _ _ H) as (pre & n & post & -> & -> & Hn & Hd).
  exists pre, n, post. repeat split; try assumption.
  now rewrite !append_assoc.
Qed.

(** A fragment in which the link pattern is found ends with [/issues/],
    a run of digits and at most a newline. *)
Lemma issue_url_match_ends (cfg_repo s m : string) :
  search (issue_url cfg_repo) s = Some m ->
  exists a ds e,
    s = a ++ "/issues/" ++ ds ++ e /\
    digits ds /\ (e = "" \/ e = String Str.newline "").
Proof.
  intros H.
  destruct (search_sound _ _ _ H) as (pre & post & -> & HD).
  unfold issue_url in HD.
  destruct (denotes_lit _ _ _ _ HD) as (m1 & -> & H1).
  destruct (denotes_one _ _ _ _ H1) as (c & m2 & -> & _ & H2).
  destruct (denotes_lit _ _ _ _ H2) as (m3 & -> & H3).
  destruct (denotes_app _ _ _ _ H3) as (mr & m4 & -> & _ & H4).
  destruct (denotes_lit _ _ _ _ H4) as (m5 & -> & H5).
  cbn -[Ascii.eqb Str.isdigit at_end] in H5.
  destruct H5 as (ds & m7 & -> & Hds & Hall & He & ->).
  rewrite append_nil_r in *.
  exists (pre ++ "https://github" ++ String c ("com/" ++ mr)), ds, post.
  split; [|split; [split; assumption|]].
  - rewrite !append_assoc. simpl. rewrite !append_assoc. reflexivity.
  - apply at_end_cases. exact He.
Qed.

Lemma issue_url_match_shape (cfg_repo s m : string) :
  search (issue_url cfg_repo) s = Some m ->
  exists a ds e,
    s = a ++ String Str.slash (ds ++ e) /\
    ds <> "" /\ Str.forallb Str.isdigit ds = true /\
    (e = "" \/ e = String Str.newline "").
Proof.
  intros H.
  destruct (issue_url_match_ends _ _ _ H) as (a & ds & e & -> & [Hn Hd] & He).
  exists (a ++ "/issues"), ds, e.
  split; [|auto].
  rewrite append_assoc. reflexivity.
Qed.

End Matcher.

(* ================================================================== *)
(** * The candidates of one body *)

Section Candidates.

Local Open Scope string_scope.

Lemma after_last_slash_none (w : string) :
  Str.forallb not_slash w = true -> Str.after_last_slash w = None.
Proof.
  induction w as [|c w IH]; simpl; [reflexivity|].
  unfold not_slash at 1. rewrite andb_true_iff, negb_true_iff.
  intros [Hc Hw]. now rewrite (IH Hw), Hc.
Qed.

Lemma after_last_slash_app (a w : string) :
  Str.forallb not_slash w = true ->
  Str.after_last_slash (a ++ String Str.slash w) = Some w.
Proof.
  intros Hw. induction a as [|c a IH]; simpl.
  - now rewrite (after_last_slash_none w Hw).
  - now rewrite IH.
Qed.

Lemma after_last_slash_suffix (y z : string) :
  Str.forallb not_slash z = true ->
  Str.after_last_slash (y ++ z) =
  option_map (fun u => u ++ z) (Str.after_last_slash y).
Proof.
  intros Hz. induction y as [|c y IH]; simpl.
  - now apply after_last_slash_none.
  - rewrite IH. destruct (Str.after_last_slash y); simpl; [reflexivity|].
    destruct (Ascii.eqb c Str.slash); reflexivity.
Qed.

Lemma digit_not_slash (c : ascii) :
  Str.isdigit c = true -> not_slash c = true.
Proof.
  unfold not_slash. destruct (Ascii.eqb_spec c Str.slash) as [->|]; auto.
Qed.

Lemma forallb_impl (p q : ascii -> bool) (s : string) :
  (forall c, p c = true -> q c = true) ->
  Str.forallb p s = true -> Str.forallb q s = true.
Proof.
  intros Hpq. induction s as [|c s IH]; simpl; [reflexivity|].
  rewrite !andb_true_iff. intros [Hc Hs]. auto.
Qed.

Lemma digits_nl_not_slash (t : string) :
  digits_nl t -> Str.forallb not_slash t = true.
Proof.
  intros (ds & e & -> & [_ Hd] & He).
  rewrite forallb_append, (forallb_impl _ _ _ digit_not_slash Hd).
  destruct He as [->| ->]; reflexivity.
Qed.

(** Where the link pattern is found, [rsplit] has a second element, and
    that element is the run of digits (and the newline, if any). *)
Lemma creation_link_rsplit (cfg_repo s m : string) :
  Re.search (issue_url cfg_repo) s = Some m ->
  exists t, Str.rsplit_slash_1 s = Ok t /\ digits_nl t.
Proof.
  intros H.
  destruct (issue_url_match_shape _ _ _ H) as (a & ds & e & -> & Hn & Hd & He).
  assert (Ht : digits_nl (ds ++ e)) by (exists ds, e; unfold digits; auto).
  exists (ds ++ e). split; [|assumption].
  unfold Str.rsplit_slash_1.
  now rewrite (after_last_slash_app a _ (digits_nl_not_slash _ Ht)).
Qed.

(** The list comprehension never raises, and it is empty exactly when
    no fragment is a creation link. *)
Lemma body_list_of_total (cfg_repo : string) (b : list string) :
  exists l,
    body_list_of (issue_url cfg_repo) b = Ok l /\
    Forall digits_nl l /\
    (l = [] <-> Forall (fun f => creation_link cfg_repo f = false) b).
Proof.
  induction b as [|f b (l & E & Hl & Hnil)]; simpl.
  - exists []. repeat split; constructor.
  - unfold creation_link at 1.
    destruct (Re.search (issue_url cfg_repo) f) as [m|] eqn:Hm.
    + destruct (creation_link_rsplit _ _ _ Hm) as (t & -> & Ht).
      simpl. rewrite E. simpl. exists (t :: l).
      split; [reflexivity | split; [now constructor|]].
      split; [discriminate|].
      intros HF. inversion HF as [|? ? Hf _]; subst.
      unfold creation_link in Hf. rewrite Hm in Hf. discriminate.
    + exists l. split; [assumption | split; [assumption|]].
      rewrite Hnil. split.
      * intros HF. constructor; [|assumption].
        unfold creation_link. now rewrite Hm.
      * intros HF. now inversion HF.
Qed.

(** A candidate found in the subject tag is a run of digits: the tag has
    no newline. *)
Lemma candidate_in_group (t s g : string) :
  digits_nl t ->
  Re.search subject_issue_str s = Some g ->
  Str.str_in t g = true ->
  digits t.
Proof.
  intros (ds & e & -> & Hds & He) Hg Hin.
  destruct He as [->| ->].
  - now rewrite append_nil_r.
  - exfalso.
    destruct (subject_issue_group _ _ Hg) as (pre & n & post & _ & -> & _ & Hnd).
    assert (Hn' : Str.forallb not_newline n = true).
    { apply (forallb_impl Str.isdigit); [|assumption].
      intros c Hc. unfold not_newline.
      destruct (Ascii.eqb_spec c Str.newline) as [->|]; auto. }
    assert (Hg' : Str.forallb not_newline ("(Issue #" ++ n ++ ")") = true).
    { simpl. rewrite forallb_append, Hn'. reflexivity. }
    pose proof (str_in_forallb _ _ _ Hin Hg') as Hbad.
    rewrite forallb_append, andb_true_iff in Hbad.
    destruct Hbad as [_ Hbad]. discriminate Hbad.
Qed.

End Candidates.

(* ================================================================== *)
(** * [sorted] and [int] *)

Section Sorting.

Lemma insert_sorted_perm (x : string) (l : list string) :
  Permutation (insert_sorted x l) (x :: l).
Proof.
  induction l as [|y l IH]; simpl; [reflexivity|].
  destruct (String.ltb y x); [|reflexivity].
  rewrite IH. apply perm_swap.
Qed.

Lemma sorted_perm (l : list string) : Permutation (sorted l) l.
Proof.
  induction l as [|x l IH]; simpl; [reflexivity|].
  rewrite insert_sorted_perm. now constructor.
Qed.

Lemma ltb_false_le (y x : string) : String.ltb y x = false -> text_le x y.
Proof.
  unfold String.ltb, text_le, String.leb.
  rewrite (String.compare_antisym x y).
  destruct (String.compare y x); simpl; congruence.
Qed.

Lemma ltb_true_le (y x : string) : String.ltb y x = true -> text_le y x.
Proof.
  unfold String.ltb, text_le, String.leb.
  destruct (String.compare y x); congruence.
Qed.

Lemma insert_sorted_ordered (x : string) (l : list string) :
  Sorted text_le l -> Sorted text_le (insert_sorted x l).
Proof.
  induction l as [|y l IH]; intros Hs; simpl.
  - repeat constructor.
  - destruct (String.ltb y x) eqn:Hyx.
    + inversion Hs as [|? ? Hl Hd]; subst.
      constructor; [now apply IH|].
      destruct l as [|z l]; simpl.
      * constructor. now apply ltb_true_le.
      * destruct (String.ltb z x); constructor.
        -- now inversion Hd.
        -- now apply ltb_true_le.
    + constructor; [assumption|]. constructor. now apply ltb_false_le.
Qed.

Lemma sorted_ordered (l : list string) : Sorted text_le (sorted l).
Proof.
  induction l as [|x l IH]; simpl; [constructor|].
  now apply insert_sorted_ordered.
Qed.

Lemma int_acc_digits (s : string) :
  Str.forallb Str.isdigit s = true ->
  forall acc, (0 <= acc)%Z ->
  exists z, Str.int_acc acc s = Some z /\ (0 <= z)%Z.
Proof.
  induction s as [|c s IH]; cbn [Str.int_acc Str.forallb]; intros H acc Hacc.
  - now exists acc.
  - apply andb_true_iff in H. destruct H as [Hc Hs]. rewrite Hc.
    apply (IH Hs).
    apply Z.add_nonneg_nonneg; [lia | apply Nat2Z.is_nonneg].
Qed.

(** [int] of an issue number as text is a natural number, unless the
    text is longer than [max_str_digits]. *)
Lemma int_digits (s : string) :
  digits s ->
  (exists z, Str.int s = Ok z /\ (0 <= z)%Z) \/
  (Str.int s = Raise ValueError /\
   (Str.max_str_digits < Z.of_nat (String.length s))%Z).
Proof.
  intros [Hn Hd]. unfold Str.int.
  destruct s as [|c s]; [congruence|].
  destruct (int_acc_digits _ Hd 0%Z (Z.le_refl 0)) as (z & E & Hz).
  rewrite E.
  destruct (Z.ltb_spec Str.max_str_digits (Z.of_nat (String.length (String c s))))
    as [Hlong|Hshort].
  - right. now split.
  - left. now exists z.
Qed.

End Sorting.

(* ================================================================== *)
(** * What [get_issue_num_list] and [main] can return *)

Section Outcomes.

Lemma append_star_cases (issue_list issue_num : list string) :
  (exists num, issue_num = [num] /\
               append_star issue_list issue_num = Ok (issue_list ++ [num])) \/
  (List.length issue_num <> 1 /\
   append_star issue_list issue_num = Raise TypeError).
Proof.
  destruct issue_num as [|x [|y l]]; simpl.
  - right. split; [lia | reflexivity].
  - left. now exists x.
  - right. split; [lia | reflexivity].
Qed.

(** One e-mail leaves the list as it is, adds one issue number, or
    raises [TypeError]. *)
Lemma github_entry_cases (cfg_repo : string) (issue_list : list string)
  (entry : email (list string)) :
  github_entry cfg_repo issue_list entry = Ok issue_list \/
  (exists num, digits num /\
     github_entry cfg_repo issue_list entry = Ok (issue_list ++ [num])) \/
  github_entry cfg_repo issue_list entry = Raise TypeError.
Proof.
  unfold github_entry.
  destruct (body_list_of_total cfg_repo (body entry)) as (l & -> & Hl & _).
  simpl. destruct l as [|t l]; [now left|].
  destruct (Re.search subject_issue_str (subject entry)) as [g|] eqn:Hg;
    [|now left].
  set (issue_num := filter _ _).
  destruct (append_star_cases issue_list issue_num) as [(num & E & ->)|[_ ->]];
    [|now right; right].
  right; left. exists num. split; [|reflexivity].
  assert (Hin : In num issue_num) by (rewrite E; now left).
  apply filter_In in Hin. destruct Hin as [Hin Hsub].
  rewrite Forall_forall in Hl.
  exact (candidate_in_group _ _ _ (Hl _ Hin) Hg Hsub).
Qed.

Lemma github_loop_cases (cfg_repo : string)
  (entries : list (email (list string))) :
  forall issue_list,
    Forall digits issue_list ->
    (exists l, github_loop cfg_repo entries issue_list = Ok l /\
               Forall digits l) \/
    github_loop cfg_repo entries issue_list = Raise TypeError.
Proof.
  induction entries as [|e entries IH]; intros il Hil; simpl.
  - left. now exists il.
  - destruct (github_entry_cases cfg_repo il e) as [-> | [(num & Hn & ->) | ->]];
      simpl.
    + now apply IH.
    + apply IH. apply Forall_app. split; [assumption | now constructor].
    + now right.
Qed.

(** [get_issue_num_list] returns issue numbers as texts, or raises
    [TypeError]. *)
Lemma get_issue_num_list_digits (d : email_dict (list string))
  (cfg : cfg_dict) :
  (exists l, get_issue_num_list d cfg = Ok l /\ Forall digits l) \/
  get_issue_num_list d cfg = Raise TypeError.
Proof.
  unfold get_issue_num_list.
  destruct (rule_of_sender (sender cfg)); simpl;
    try (left; exists []; split; [reflexivity | constructor]).
  destruct (github_loop_cases (repo cfg) (values d) [] (Forall_nil _))
    as [(l & -> & Hl) | ->]; simpl; [|now right].
  left. exists (sorted l). split; [reflexivity|].
  rewrite Forall_forall in *. intros x Hx. apply Hl.
  now apply (Permutation_in _ (sorted_perm l)).
Qed.

(** The range of a list of issue numbers that is not empty: a pair of
    natural numbers, or the [ValueError] of [int] on an issue number of
    more than [max_str_digits] digits. *)
Lemma issue_range_digits (l : list string) :
  Forall digits l -> l <> [] ->
  (exists lo hi, issue_range l = Ok (lo, hi) /\ (0 <= lo)%Z /\ (0 <= hi)%Z) \/
  (issue_range l = Raise ValueError /\
   exists num, In num l /\
               (Str.max_str_digits < Z.of_nat (String.length num))%Z).
Proof.
  intros Hl Hne. destruct l as [|x l]; [congruence|].
  unfold issue_range.
  assert (Hx : digits x) by now inversion Hl.
  assert (Hin : In (last (x :: l) x) (x :: l)).
  { destruct (exists_last Hne) as (l' & y & E). rewrite E.
    rewrite last_last. apply in_or_app. right. now left. }
  assert (Hlast : digits (last (x :: l) x)).
  { rewrite Forall_forall in Hl. now apply Hl. }
  destruct (int_digits _ Hx) as [(lo & -> & Hlo) | [-> Hlong]]; cbn [bind].
  - destruct (int_digits _ Hlast) as [(hi & E & Hhi) | [E Hlong]];
      rewrite E; cbn [bind].
    + left. now exists lo, hi.
    + right. split; [reflexivity|]. now exists (last (x :: l) x).
  - right. split; [reflexivity|]. exists x. split; [now left | assumption].
Qed.


End Outcomes.

(* ================================================================== *)
(** * Skipping fragments and reading the subject *)

Section Skipping.

Import Re.
Local Open Scope string_scope.

Lemma body_list_of_skip (url : pattern) (f : string) (b1 b2 : list string) :
  search url f = None ->
  body_list_of url (b1 ++ f :: b2)%list = body_list_of url (b1 ++ b2)%list.
Proof.
  intros Hf. induction b1 as [|g b1 IH]; simpl.
  - now rewrite Hf.
  - now rewrite IH.
Qed.

Lemma creation_link_false (cfg_repo f : string) :
  creation_link cfg_repo f = false <-> search (issue_url cfg_repo) f = None.
Proof.
  unfold creation_link.
  destruct (search (issue_url cfg_repo) f); split; congruence.
Qed.

Lemma body_list_of_app (url : pattern) (b1 b2 : list string) :
  body_list_of url (b1 ++ b2)%list =
  (l1 <- body_list_of url b1 ;;
   l2 <- body_list_of url b2 ;;
   Ok (l1 ++ l2)%list).
Proof.
  induction b1 as [|f b1 IH]; cbn [body_list_of app bind].
  - now destruct (body_list_of url b2).
  - destruct (search url f); [|exact IH].
    destruct (Str.rsplit_slash_1 f); cbn [bind]; [|reflexivity].
    rewrite IH.
    destruct (body_list_of url b1); cbn [bind]; [|reflexivity].
    now destruct (body_list_of url b2).
Qed.

(** Fragments none of which is kept for the tag give candidates none of
    which passes the comparison with the tag. *)
Lemma body_list_of_not_kept (cfg_repo group : string) (b : list string) :
  Forall (fun f => kept_for cfg_repo group f = false) b ->
  exists l,
    body_list_of (issue_url cfg_repo) b = Ok l /\
    List.filter (fun num => Str.str_in num group) l = [].
Proof.
  induction 1 as [|f b Hf _ (l & E & Hl)]; cbn [body_list_of].
  - now exists [].
  - unfold kept_for, creation_link in Hf.
    destruct (search (issue_url cfg_repo) f) as [m|] eqn:Hm.
    + destruct (creation_link_rsplit _ _ _ Hm) as (t & Ht & _).
      rewrite Ht, E. cbn [bind]. exists (t :: l). split; [reflexivity|].
      unfold Str.rsplit_slash_1 in Ht.
      destruct (Str.after_last_slash f) as [t'|]; [|discriminate].
      injection Ht as ->. cbn [andb] in Hf.
      cbn [List.filter]. now rewrite Hf.
    + now exists l.
Qed.

(** An e-mail on which [github_entry] changes nothing can be taken out
    of the loop. *)
Lemma github_loop_skip (cfg_repo : string) (entry : email (list string))
  (es1 es2 : list (email (list string))) :
  (forall issue_list, github_entry cfg_repo issue_list entry = Ok issue_list) ->
  forall issue_list,
    github_loop cfg_repo (es1 ++ entry :: es2)%list issue_list =
    github_loop cfg_repo (es1 ++ es2)%list issue_list.
Proof.
  intros He. induction es1 as [|e es1 IH]; intros il; simpl.
  - now rewrite He.
  - destruct (github_entry cfg_repo il e); simpl; [apply IH | reflexivity].
Qed.

Lemma plus_loop_before_paren (cs : cset) (k : string -> option string)
  (v : string) :
  cset_mem cs "("%char = false ->
  forall u,
    (forall u', k (u' ++ String "("%char v) = k u') ->
    plus_loop cs k (u ++ String "("%char v) = plus_loop cs k u.
Proof.
  intros Hcs u Hk. induction u as [|c u IH]; simpl.
  - now rewrite Hcs.
  - destruct (cset_mem cs c); [|reflexivity].
    now rewrite IH, Hk.
Qed.

(** A pattern none of whose items takes a parenthesis matches the same
    with or without a parenthesised text after the subject. *)
Lemma match_here_before_paren (p : pattern) (v : string) :
  forallb no_paren_item p = true ->
  forall u, match_here p (u ++ String "("%char v) = match_here p u.
Proof.
  induction p as [|[cs|cs|] p IH]; cbn [forallb no_paren_item];
    intros Hp u.
  - reflexivity.
  - apply andb_true_iff in Hp. destruct Hp as [Hcs Hp].
    apply negb_true_iff in Hcs.
    destruct u as [|c u]; cbn [match_here append].
    + now rewrite Hcs.
    + now rewrite (IH Hp).
  - apply andb_true_iff in Hp. destruct Hp as [Hcs Hp].
    apply negb_true_iff in Hcs.
    cbn [match_here]. apply plus_loop_before_paren; [assumption|].
    intros u'. now apply IH.
  - discriminate.
Qed.

Lemma subject_match_before_paren (c : ascii) (u v : string) :
  match_here subject_issue_str (String c (u ++ String "("%char v)) =
  match_here subject_issue_str (String c u).
Proof.
  unfold subject_issue_str.
  change (lit "(Issue #" ++ [Plus CDigit] ++ lit ")")%list with
    (One (CChar "("%char) :: (lit "Issue #" ++ [Plus CDigit] ++ lit ")"))%list.
  cbn [match_here].
  destruct (cset_mem (CChar "("%char) c); [|reflexivity].
  now rewrite match_here_before_paren.
Qed.

(** The tag that [re.search] returns is the first one of the subject:
    a tag that follows a text without a tag is the one found. *)
Lemma subject_first_tag (pre post : string) :
  search subject_issue_str pre = None ->
  search subject_issue_str (pre ++ "(Issue #42)" ++ post) =
  Some "(Issue #42)".
Proof.
  induction pre as [|c pre IH]; intros H.
  - reflexivity.
  - cbn [search] in H.
    destruct (match_here subject_issue_str (String c pre)) eqn:Hm;
      [discriminate|].
    change (String c pre ++ "(Issue #42)" ++ post) with
      (String c (pre ++ String "("%char ("Issue #42)" ++ post))).
    cbn [search]. rewrite subject_match_before_paren, Hm.
    now apply IH.
Qed.

Lemma no_tag_no_match (s : string) :
  ~ has_issue_tag s -> search subject_issue_str s = None.
Proof.
  intros H. destruct (search subject_issue_str s) as [g|] eqn:Hg;
    [|reflexivity].
  exfalso. apply H. exact (search_subject_has_tag _ _ Hg).
Qed.

(** No fragment that ends with [#] and a text without a slash is a
    creation link. *)
Lemma anchor_is_no_creation_link (cfg_repo y anchor : string) :
  Str.forallb not_slash anchor = true ->
  search (issue_url cfg_repo) (y ++ "#" ++ anchor) = None.
Proof.
  intros Ha.
  destruct (search (issue_url cfg_repo) (y ++ "#" ++ anchor)) as [m|] eqn:Hm;
    [|reflexivity].
  exfalso.
  destruct (issue_url_match_shape _ _ _ Hm) as (a & ds & e & E & Hn & Hd & He).
  assert (Ht : digits_nl (ds ++ e)) by (exists ds, e; unfold digits; auto).
  pose proof (after_last_slash_app a _ (digits_nl_not_slash _ Ht)) as H1.
  rewrite <- E in H1.
  rewrite (after_last_slash_suffix y ("#" ++ anchor)) in H1
    by (simpl; exact Ha).
  destruct (Str.after_last_slash y) as [u|]; [|discriminate].
  simpl in H1. injection H1 as H1.
  assert (Hall : Str.forallb digit_or_newline (ds ++ e) = true).
  { rewrite forallb_append.
    rewrite (forallb_impl Str.isdigit digit_or_newline ds).
    - destruct He as [->| ->]; reflexivity.
    - intros c Hc. unfold digit_or_newline. now rewrite Hc.
    - exact Hd. }
  rewrite <- H1, forallb_append in Hall.
  apply andb_true_iff in Hall. destruct Hall as [_ Hall].
  discriminate Hall.
Qed.

End Skipping.

(* ================================================================== *)
(** * The subject tag, as [re.search] sees it *)

Section SubjectTag.

Import Re.
Local Open Scope string_scope.

Lemma plus_digits_then_paren (n post : string) :
  digits n ->
  plus_loop CDigit (match_here [One (CChar ")"%char)])
    (n ++ String ")"%char post) =
  Some (n ++ ")").
Proof.
  intros [Hn Hd]. induction n as [|c n IH]; [congruence|].
  cbn [Str.forallb] in Hd. apply andb_true_iff in Hd. destruct Hd as [Hc Hd].
  change (String c n ++ String ")"%char post)
    with (String c (n ++ String ")"%char post)).
  cbn [plus_loop cset_mem]. rewrite Hc.
  destruct (string_dec n "") as [->|Hne].
  - reflexivity.
  - rewrite (IH Hne Hd). reflexivity.
Qed.

Lemma match_here_lit (t : string) (p : pattern) (s : string) :
  match_here (lit t ++ p)%list (t ++ s) =
  option_map (append t) (match_here p s).
Proof.
  induction t as [|c t IH]; cbn [lit app append match_here cset_mem].
  - now destruct (match_here p s).
  - rewrite Ascii.eqb_refl, IH. now destruct (match_here p s).
Qed.

Lemma match_here_tag (n post : string) :
  digits n ->
  match_here subject_issue_str ("(Issue #" ++ n ++ ")" ++ post) =
  Some ("(Issue #" ++ n ++ ")").
Proof.
  intros Hn. unfold subject_issue_str. rewrite match_here_lit.
  change (match_here ([Plus CDigit] ++ lit ")")%list (n ++ ")" ++ post))
    with (plus_loop CDigit (match_here [One (CChar ")"%char)])
            (n ++ String ")"%char post)).
  now rewrite (plus_digits_then_paren n post Hn).
Qed.

Lemma search_after (p : pattern) (pre s m : string) :
  match_here p s = Some m -> search p (pre ++ s) <> None.
Proof.
  intros Hm. induction pre as [|c pre IH]; simpl.
  - destruct s; simpl; rewrite Hm; discriminate.
  - destruct (match_here p (String c (pre ++ s))); [discriminate | exact IH].
Qed.

(** [re.search] finds a tag exactly in the subjects that have one. *)
Lemma has_issue_tag_search (s : string) :
  has_issue_tag s <-> search subject_issue_str s <> None.
Proof.
  split.
  - intros (pre & n & post & -> & Hn & Hd).
    apply (search_after _ pre _ _ (match_here_tag n post (conj Hn Hd))).
  - intros H. destruct (search subject_issue_str s) as [g|] eqn:Hg;
      [|congruence].
    exact (search_subject_has_tag _ _ Hg).
Qed.

Lemma no_tag_search (s : string) :
  search subject_issue_str s = None -> ~ has_issue_tag s.
Proof. rewrite has_issue_tag_search. congruence. Qed.

End SubjectTag.

(* ================================================================== *)
(** * The normaliser: claims C4 and C9 *)

Section NormaliserClaims.

Local Open Scope string_scope.

(** C4. The claim: the fragments that the normaliser returns are
    non-empty and printable, the fragment still open at the end of the
    text is appended, and the fragments concatenated are the text
    without its non-printable characters. The code: [parse_body] never
    appends the fragment that is open when the text ends. A body with
    no non-printable character gives no fragment at all, a body whose
    last line has no line end loses that line, and the concatenation
    differs from the stripped text. *)
Theorem parse_body_drops_open_fragment :
  parse_body "Fixes the crash." = [] /\
  parse_body ("See" ++ Sample.nl ++ Sample.link "42") = ["See"] /\
  Str.join (parse_body "Fixes the crash.") <>
  Str.filter Str.isprintable "Fixes the crash.".
Proof.
  split; [reflexivity | split; [reflexivity|]].
  vm_compute. discriminate.
Qed.

(** C9. Normalisation changes only the bodies: the dictionary keeps its
    keys, and under every key the date and the subject are the ones of
    the input, while the body is the list of fragments of the input
    body, each of them non-empty and printable. *)
Theorem parse_email_bodies_frame (d : email_dict string) (k : Z)
  (e : email string) :
  lookup k d = Some e ->
  keys (parse_email_bodies d) = keys d /\
  exists e',
    lookup k (parse_email_bodies d) = Some e' /\
    date e' = date e /\ subject e' = subject e /\
    body e' = parse_body (body e) /\
    Forall printable_fragment (body e').
Proof.
  intros H. split; [apply keys_parse_email_bodies|].
  exists (parse_email e).
  rewrite lookup_parse_email_bodies, H.
  repeat split. apply parse_body_fragments.
Qed.

Lemma parse_email_bodies_frame_witness :
  exists e',
    lookup 0%Z (parse_email_bodies Sample.three_messages) = Some e' /\
    date e' = date Sample.msg_a /\ subject e' = subject Sample.msg_a /\
    body e' = parse_body (body Sample.msg_a) /\
    Forall printable_fragment (body e').
Proof.
  exact (proj2 (parse_email_bodies_frame Sample.three_messages 0%Z
                  Sample.msg_a eq_refl)).
Defined.

End NormaliserClaims.

(* ================================================================== *)
(** * Sender dispatch: claims C8 and C10 *)

Section SenderClaims.

Local Open Scope string_scope.

Lemma rule_of_sender_github (cfg_sender : string) :
  rule_of_sender cfg_sender = GithubRule <->
  Str.str_in "github" cfg_sender = true.
Proof.
  unfold rule_of_sender.
  destruct (Str.str_in "github" cfg_sender);
    [tauto | destruct (Str.str_in "jira" cfg_sender)];
    split; discriminate.
Qed.

(** C8. For every dictionary of e-mails and every sender that selects
    the Jira branch or the final [else] branch, [get_issue_num_list]
    returns the empty list, without raising. *)
Theorem unsupported_sender_yields_nothing (d : email_dict (list string))
  (cfg : cfg_dict) :
  rule_of_sender (sender cfg) = JiraRule \/
  rule_of_sender (sender cfg) = NoRule ->
  get_issue_num_list d cfg = Ok [].
Proof.
  unfold get_issue_num_list. intros [-> | ->]; reflexivity.
Qed.

Lemma unsupported_sender_yields_nothing_witness :
  get_issue_num_list [(0%Z, Sample.msg_42)] (Cfg "acme/widget" "jira") = Ok [].
Proof.
  apply (unsupported_sender_yields_nothing
           [(0%Z, Sample.msg_42)] (Cfg "acme/widget" "jira")).
  left. reflexivity.
Defined.

(** C10. The dispatch is by substring: the GitHub branch is taken
    exactly when ["github"] occurs in the configured sender, so that
    ["my-github-fork"] takes it too; a sender with ["github"] in it gets
    the result of the GitHub loop, sorted, and every other sender gets
    the empty list. *)
Theorem sender_dispatch_by_substring (cfg_sender : string) :
  (rule_of_sender cfg_sender = GithubRule <-> occurs_in "github" cfg_sender) /\
  rule_of_sender "my-github-fork" = GithubRule /\
  (forall d cfg_repo,
      occurs_in "github" cfg_sender ->
      get_issue_num_list d (Cfg cfg_repo cfg_sender) =
      (issue_list <- github_loop cfg_repo (values d) [] ;;
       Ok (sorted issue_list))) /\
  (forall d cfg_repo,
      ~ occurs_in "github" cfg_sender ->
      get_issue_num_list d (Cfg cfg_repo cfg_sender) = Ok []).
Proof.
  assert (E : rule_of_sender cfg_sender = GithubRule <->
              occurs_in "github" cfg_sender)
    by (rewrite rule_of_sender_github; apply str_in_occurs).
  split; [exact E | split; [reflexivity | split]].
  - intros d cfg_repo H. apply E in H.
    unfold get_issue_num_list. cbn [sender repo]. now rewrite H.
  - intros d cfg_repo H. unfold get_issue_num_list. cbn [sender repo].
    destruct (rule_of_sender cfg_sender); [tauto | reflexivity | reflexivity].
Qed.

Lemma sender_dispatch_by_substring_witness :
  occurs_in "github" "my-github-fork" /\
  get_issue_num_list [(0%Z, Sample.msg_42)] (Cfg "acme/widget" "my-github-fork")
  = (issue_list <- github_loop "acme/widget" [Sample.msg_42] [] ;;
     Ok (sorted issue_list)).
Proof.
  assert (H : occurs_in "github" "my-github-fork")
    by (exists "my-", "-fork"; reflexivity).
  split; [exact H|].
  exact (proj1 (proj2 (proj2 (sender_dispatch_by_substring "my-github-fork")))
           [(0%Z, Sample.msg_42)] "acme/widget" H).
Defined.

(** The same e-mail under three senders. *)
Example dispatch_examples :
  get_issue_num_list [(0%Z, Sample.msg_42)] (Cfg "acme/widget" "my-github-fork")
  = Ok ["42"] /\
  get_issue_num_list [(0%Z, Sample.msg_42)] (Cfg "acme/widget" "jira") = Ok [] /\
  get_issue_num_list [(0%Z, Sample.msg_42)] (Cfg "acme/widget" "GitHub") = Ok [].
Proof. repeat split; vm_compute; reflexivity. Qed.

End SenderClaims.

(* ================================================================== *)
(** * The range: claims C1, C2 and C3 *)

Section RangeClaims.

Local Open Scope string_scope.
Local Open Scope Z_scope.

(** The identifiers 5, 3, 9, 3 give the range (3, 9). *)
Example range_5_3_9_3 :
  sorted ["5"; "3"; "9"; "3"] = ["3"; "3"; "5"; "9"] /\
  issue_range (sorted ["5"; "3"; "9"; "3"]) = Ok (3, 9).
Proof. split; reflexivity. Qed.

(** C1. The claim: the identifiers are sorted as numbers and the range
    is (smallest, largest), so that min_id <= max_id on every input.
    The code: [sorted] is applied to the identifiers as texts, before
    [int]; the text ["10"] comes before the text ["9"]. Two
    notifications, for the issues 9 and 10, give the range (10, 9). *)
Theorem range_of_nine_and_ten :
  sorted ["9"; "10"] = ["10"; "9"] /\
  get_issue_num_list (parse_email_bodies Sample.nine_and_ten) Sample.cfg =
  Ok ["10"; "9"] /\
  main Sample.nine_and_ten Sample.cfg = Ok (10, 9).
Proof. repeat split; vm_compute; reflexivity. Qed.

(** C2, as stated, fails: a batch in which no e-mail matches gives zero
    identifiers, and the driver step ends in the built-in [IndexError] of
    [issue_list[0]], the error of any out-of-range index, not in a
    condition of its own for the empty result. *)
Lemma zero_identifiers_index_error :
  get_issue_num_list (parse_email_bodies [(0, Sample.msg_b)]) Sample.cfg =
  Ok [] /\
  main [(0, Sample.msg_b)] Sample.cfg = Raise IndexError.
Proof. split; vm_compute; reflexivity. Qed.

(** C2, amended. For a sender of [SENDER_DICT] and a repository name
    of letters, digits and [- _ . /], when [get_issue_num_list] returns
    the empty list the driver step (lines 46 to 55) raises [IndexError]
    at [issue_list[0]]: it returns no range, (0, 0) or other, and it
    raises no other exception. *)
Theorem empty_result_is_index_error (d : email_dict string) (cfg : cfg_dict) :
  valid_repo (repo cfg) = true ->
  in_SENDER_DICT (sender cfg) = true ->
  get_issue_num_list (parse_email_bodies d) cfg = Ok [] ->
  main d cfg = Raise IndexError /\
  (forall range, main d cfg <> Ok range) /\
  (forall e, main d cfg = Raise e -> e = IndexError).
Proof.
  intros _ Hs Hl. unfold main. rewrite Hs, Hl. cbn [bind issue_range].
  split; [reflexivity|]. split.
  - intros range. discriminate.
  - intros e [= <-]. reflexivity.
Qed.

Lemma empty_result_is_index_error_witness :
  main [(0, Sample.msg_b)] Sample.cfg = Raise IndexError.
Proof.
  apply (empty_result_is_index_error [(0, Sample.msg_b)] Sample.cfg
           eq_refl eq_refl).
  vm_compute. reflexivity.
Defined.

(** C3. The claim: of the three messages, (b) and (c) are ignored and
    the range is (10, 10). The code: on (c) the creation link of issue
    11 is a candidate, the subject has the tag of issue 12, no candidate
    is found in the tag, and [append] is called without an argument: the
    run ends in [TypeError]. Without (c) the range is (10, 10). *)
Theorem three_messages_raise_type_error :
  main Sample.three_messages Sample.cfg = Raise TypeError /\
  github_entry "acme/widget" ["10"] (parse_email Sample.msg_c) =
  Raise TypeError /\
  main [(0, Sample.msg_a); (1, Sample.msg_b)] Sample.cfg = Ok (10, 10).
Proof. repeat split; vm_compute; reflexivity. Qed.

End RangeClaims.

(* ================================================================== *)
(** * Corroboration: claims C5, C6 and C7 *)

Section CorroborationClaims.

Local Open Scope string_scope.

(** C5, as stated, fails. In the first message the body has the link
    of issue 42 as a fragment and the subject has the tag (Issue #42),
    but another fragment ends with the link of issue 4, and ["4"] is
    found in the tag as well as ["42"]: two candidates are kept. In the
    second message the title quotes the tag of issue 7 before the tag
    (Issue #42): the tag compared is the first one. In both, [append]
    raises and no identifier is returned. *)
Lemma two_candidates_in_tag :
  (In (Sample.link "42") (body Sample.msg_two_links) /\
   occurs_in "(Issue #42)" (subject Sample.msg_two_links) /\
   body_list_of (issue_url "acme/widget") (body Sample.msg_two_links) =
   Ok ["4"; "42"] /\
   get_issue_num_list [(0%Z, Sample.msg_two_links)] Sample.cfg =
   Raise TypeError) /\
  (In (Sample.link "42") (body Sample.msg_two_tags) /\
   occurs_in "(Issue #42)" (subject Sample.msg_two_tags) /\
   Re.search subject_issue_str (subject Sample.msg_two_tags) =
   Some "(Issue #7)" /\
   get_issue_num_list [(0%Z, Sample.msg_two_tags)] Sample.cfg =
   Raise TypeError).
Proof.
  split.
  - split; [right; right; left; reflexivity|].
    split; [exists "[acme/widget] Crash on resize ", ""; reflexivity|].
    split; vm_compute; reflexivity.
  - split; [right; left; reflexivity|].
    split; [exists "[acme/widget] Regression of (Issue #7) ", ""; reflexivity|].
    split; vm_compute; reflexivity.
Qed.

(** C5, amended. A message whose body has the link of issue 42 as a
    fragment and no other fragment that gives a candidate found in the
    text (Issue #42), and whose subject has the tag (Issue #42) with no
    tag before it, gives the identifier 42, for the repository
    acme/widget and the sender github. *)
Theorem single_link_corroborated (k : Z) (d subj_pre subj_post : string)
  (b1 b2 : list string) :
  Forall (fun f => kept_for "acme/widget" "(Issue #42)" f = false) b1 ->
  Forall (fun f => kept_for "acme/widget" "(Issue #42)" f = false) b2 ->
  ~ has_issue_tag subj_pre ->
  let entry :=
    Email d (subj_pre ++ "(Issue #42)" ++ subj_post)
          (b1 ++ Sample.link "42" :: b2)%list in
  github_entry "acme/widget" [] entry = Ok ["42"] /\
  get_issue_num_list [(k, entry)] Sample.cfg = Ok ["42"] /\
  issue_range ["42"] = Ok (42, 42)%Z.
Proof.
  intros H1 H2 Hpre entry.
  destruct (body_list_of_not_kept _ _ _ H1) as (l1 & E1 & F1).
  destruct (body_list_of_not_kept _ _ _ H2) as (l2 & E2 & F2).
  assert (E : github_entry "acme/widget" [] entry = Ok ["42"]).
  { unfold github_entry, entry. cbn [body subject].
    rewrite body_list_of_app, E1. cbn [body_list_of bind].
    replace (Re.search (issue_url "acme/widget") (Sample.link "42"))
      with (Some (Sample.link "42")) by (vm_compute; reflexivity).
    replace (Str.rsplit_slash_1 (Sample.link "42")) with (Ok "42")
      by (vm_compute; reflexivity).
    rewrite E2. cbn [bind].
    rewrite (subject_first_tag _ _ (no_tag_no_match _ Hpre)).
    rewrite filter_app, F1. cbn [List.filter app].
    replace (Str.str_in "42" "(Issue #42)") with true
      by (vm_compute; reflexivity).
    rewrite F2. now destruct l1. }
  split; [exact E | split; [|reflexivity]].
  unfold get_issue_num_list.
  change (rule_of_sender (sender Sample.cfg)) with GithubRule.
  cbn [values map snd github_loop repo Sample.cfg].
  rewrite E. reflexivity.
Qed.

Lemma single_link_corroborated_witness :
  github_entry "acme/widget" [] Sample.msg_42 = Ok ["42"] /\
  get_issue_num_list [(0%Z, Sample.msg_42)] Sample.cfg = Ok ["42"] /\
  issue_range ["42"] = Ok (42, 42)%Z.
Proof.
  apply (single_link_corroborated 0%Z
           "Mon, 02 Nov 2026 13:00:00 +0000"
           "[acme/widget] Crash on resize " ""
           ["The widget crashes when resized.";
            "Reply to this email directly or view it on GitHub:"] []).
  - repeat constructor.
  - constructor.
  - apply no_tag_search. vm_compute. reflexivity.
Defined.

(** A second creation link whose number is not found in the tag does no
    harm. *)
Example other_issue_linked :
  get_issue_num_list
    [(0%Z, Email "Mon, 02 Nov 2026 13:00:00 +0000"
                 "[acme/widget] Crash on resize (Issue #42)"
                 ["Not the same as https://github.com/acme/widget/issues/7";
                  Sample.link "42"])]
    Sample.cfg = Ok ["42"].
Proof. vm_compute. reflexivity. Qed.

(** C6. For a repository identifier [owner/name], a message whose body
    has a fragment in which the link pattern is found, but whose subject
    has no tag (Issue #N), adds nothing: the list of identifiers is left
    as it was, the message alone gives the empty list, and a batch gives
    the same with the message as without it. *)
Theorem link_without_subject_tag (cfg : cfg_dict) (k : Z)
  (entry : email (list string)) :
  valid_repo (repo cfg) = true ->
  (exists f, In f (body entry) /\ creation_link (repo cfg) f = true) ->
  ~ has_issue_tag (subject entry) ->
  (forall issue_list,
      github_entry (repo cfg) issue_list entry = Ok issue_list) /\
  get_issue_num_list [(k, entry)] cfg = Ok [] /\
  (forall d1 d2,
      get_issue_num_list (d1 ++ (k, entry) :: d2)%list cfg =
      get_issue_num_list (d1 ++ d2)%list cfg).
Proof.
  intros _ _ Hsubj.
  assert (E : forall issue_list,
             github_entry (repo cfg) issue_list entry = Ok issue_list).
  { intros il. unfold github_entry.
    destruct (body_list_of_total (repo cfg) (body entry)) as (l & -> & _).
    cbn [bind]. rewrite (no_tag_no_match _ Hsubj).
    now destruct l. }
  split; [exact E | split].
  - unfold get_issue_num_list.
    destruct (rule_of_sender (sender cfg)); try reflexivity.
    cbn [values map snd github_loop]. rewrite E. reflexivity.
  - intros d1 d2. unfold get_issue_num_list.
    destruct (rule_of_sender (sender cfg)); try reflexivity.
    unfold values. rewrite !map_app. cbn [map snd].
    now rewrite (github_loop_skip _ _ _ _ E).
Qed.

Lemma link_without_subject_tag_witness :
  get_issue_num_list
    [(0%Z, Email "Mon, 02 Nov 2026 14:00:00 +0000"
                 "Re: [acme/widget] Crash on resize"
                 ["I also see this."; Sample.link "42"])]
    Sample.cfg = Ok [].
Proof.
  apply (link_without_subject_tag Sample.cfg 0%Z
           (Email "Mon, 02 Nov 2026 14:00:00 +0000"
                  "Re: [acme/widget] Crash on resize"
                  ["I also see this."; Sample.link "42"])).
  - reflexivity.
  - exists (Sample.link "42"). split; [right; left; reflexivity|].
    vm_compute. reflexivity.
  - apply no_tag_search. vm_compute. reflexivity.
Defined.

(** C7, as stated, fails: a fragment that contains the link of a
    comment, [.../issues/42#issuecomment-99], and ends with the link of
    the issue 43 is taken for a creation link, and ["43"] is a candidate:
    [re.search] looks for the pattern at every position of the fragment,
    and the pattern is found at the end. With the tag of issue 43 in the
    subject the e-mail gives the issue number 43. *)
Lemma comment_link_before_creation_link :
  let fragment :=
    "https://github.com/acme/widget/issues/42#issuecomment-99 duplicates " ++
    "https://github.com/acme/widget/issues/43" in
  occurs_in "https://github.com/acme/widget/issues/42#issuecomment-99" fragment /\
  creation_link "acme/widget" fragment = true /\
  body_list_of (issue_url "acme/widget") [fragment] = Ok ["43"] /\
  get_issue_num_list
    [(0%Z, Email "Mon, 02 Nov 2026 15:00:00 +0000"
                 "Re: [acme/widget] Crash on exit (Issue #43)"
                 [fragment])]
    Sample.cfg = Ok ["43"].
Proof.
  cbv zeta. split; [|repeat split; vm_compute; reflexivity].
  exists "", " duplicates https://github.com/acme/widget/issues/43".
  reflexivity.
Qed.

(** C7, amended. For a repository identifier [owner/name]: a fragment
    is taken for a creation link only if it ends with [/issues/], the
    digits of the issue number and nothing more (but for a newline that
    ends the text); so a fragment that ends with the link of a comment,
    that is the link of an issue followed by [#] and an anchor without a
    slash, as in [.../issues/42#issuecomment-99], is not a creation
    link: the pattern is not found in it, and the candidates of a body
    are the same with the fragment as without it. *)
Theorem comment_link_is_no_candidate (cfg_repo : string) :
  valid_repo cfg_repo = true ->
  (forall fragment,
      creation_link cfg_repo fragment = true ->
      exists a ds e,
        fragment = a ++ "/issues/" ++ ds ++ e /\
        digits ds /\ (e = "" \/ e = String Str.newline "")) /\
  (forall pre n anchor b1 b2,
      Str.forallb not_slash anchor = true ->
      let fragment :=
        pre ++ "https://github.com/" ++ cfg_repo ++ "/issues/" ++ n ++
        "#" ++ anchor in
      creation_link cfg_repo fragment = false /\
      body_list_of (issue_url cfg_repo) (b1 ++ fragment :: b2)%list =
      body_list_of (issue_url cfg_repo) (b1 ++ b2)%list).
Proof.
  intros _. split.
  - intros f Hf. unfold creation_link in Hf.
    destruct (Re.search (issue_url cfg_repo) f) as [m|] eqn:Hm;
      [|discriminate].
    exact (issue_url_match_ends _ _ _ Hm).
  - intros pre n anchor b1 b2 Ha fragment.
    assert (E : Re.search (issue_url cfg_repo) fragment = None).
    { unfold fragment.
      replace (pre ++ "https://github.com/" ++ cfg_repo ++ "/issues/" ++ n ++
               "#" ++ anchor)
        with ((pre ++ "https://github.com/" ++ cfg_repo ++ "/issues/" ++ n) ++
              "#" ++ anchor)
        by (now rewrite !append_assoc).
      now apply anchor_is_no_creation_link. }
    split.
    + now apply creation_link_false.
    + now apply body_list_of_skip.
Qed.

Lemma comment_link_is_no_candidate_witness :
  creation_link "acme/widget"
    "https://github.com/acme/widget/issues/42#issuecomment-99" = false /\
  body_list_of (issue_url "acme/widget")
    ["See the thread.";
     "https://github.com/acme/widget/issues/42#issuecomment-99";
     Sample.link "42"] =
  body_list_of (issue_url "acme/widget")
    ["See the thread."; Sample.link "42"].
Proof.
  apply (proj2 (comment_link_is_no_candidate "acme/widget" eq_refl)
           "" "42" "issuecomment-99" ["See the thread."] [Sample.link "42"]).
  reflexivity.
Defined.

End CorroborationClaims.

(* ================================================================== *)
(** * Dictionaries *)

Section DictFacts.

Context {V : Type}.
Implicit Types (d : list (string * V)) (k key : string) (v : V).

Lemma dict_get_set_same key v d : Dict.get key (Dict.set key v d) = Some v.
Proof.
  induction d as [|[k x] d IH]; simpl.
  - now rewrite String.eqb_refl.
  - destruct (String.eqb key k) eqn:E; simpl; rewrite E; [reflexivity | exact IH].
Qed.

Lemma dict_get_set_other k key v d :
  k <> key -> Dict.get k (Dict.set key v d) = Dict.get k d.
Proof.
  intros Hk. induction d as [|[k' x] d IH]; simpl.
  - apply String.eqb_neq in Hk. now rewrite Hk.
  - destruct (String.eqb key k') eqn:E; simpl.
    + apply String.eqb_eq in E. subst k'.
      apply String.eqb_neq in Hk. now rewrite Hk.
    + now rewrite IH.
Qed.

Lemma dict_get_none k d : Dict.get k d = None <-> ~ In k (Dict.keys d).
Proof.
  induction d as [|[k' x] d IH]; simpl; [tauto|].
  destruct (String.eqb_spec k k') as [->|Hk].
  - split; [discriminate | intros H; exfalso; apply H; now left].
  - rewrite IH. split; [intros H [E|E]; [congruence | tauto] | tauto].
Qed.

Lemma dict_get_in k v d : Dict.get k d = Some v -> In (k, v) d.
Proof.
  induction d as [|[k' x] d IH]; simpl; [discriminate|].
  destruct (String.eqb_spec k k') as [->|Hk].
  - intros [= ->]. now left.
  - intros H. right. now apply IH.
Qed.

Lemma dict_set_present key v d :
  In key (Dict.keys d) -> Dict.keys (Dict.set key v d) = Dict.keys d.
Proof.
  induction d as [|[k x] d IH]; simpl; [tauto|].
  destruct (String.eqb_spec key k) as [->|Hk]; [reflexivity|].
  intros [E|E]; [congruence|]. simpl. now rewrite IH.
Qed.

Lemma dict_set_absent key v d :
  ~ In key (Dict.keys d) -> Dict.set key v d = (d ++ [(key, v)])%list.
Proof.
  induction d as [|[k x] d IH]; simpl; [reflexivity|].
  destruct (String.eqb_spec key k) as [->|Hk]; [tauto|].
  intros H. rewrite IH; tauto.
Qed.

(** Storing under a key the value it has changes nothing. *)
Lemma dict_set_same_value key v d :
  Dict.get key d = Some v -> Dict.set key v d = d.
Proof.
  induction d as [|[k x] d IH]; simpl; [discriminate|].
  destruct (String.eqb_spec key k) as [->|Hk].
  - now intros [= ->].
  - intros H. now rewrite IH.
Qed.

Lemma dict_set_wf key v d : Dict.wf d -> Dict.wf (Dict.set key v d).
Proof.
  unfold Dict.wf. intros H.
  destruct (in_dec string_dec key (Dict.keys d)) as [Hin|Hin].
  - now rewrite dict_set_present.
  - rewrite dict_set_absent by assumption.
    unfold Dict.keys. rewrite map_app. simpl.
    apply NoDup_app; [assumption | repeat constructor; tauto |].
    intros k Hk [<-|[]]. exact (Hin Hk).
Qed.

End DictFacts.

(* ================================================================== *)
(** * [__merge_dicts_recursive] *)

Section Merge.

(** What the dictionary holds under a key after the loop. *)
Lemma merge_loop_get (mv : json -> option json -> json) (add : pydict) :
  Dict.wf add ->
  forall base k,
    Dict.get k (merge_loop mv add base) =
    match Dict.get k add with
    | Some value => Some (mv value (Dict.get k base))
    | None => Dict.get k base
    end.
Proof.
  unfold Dict.wf. induction add as [|[key value] add IH]; intros Hwf base k.
  - reflexivity.
  - simpl in Hwf. inversion Hwf as [|? ? Hkey Hrest]; subst.
    cbn [merge_loop Dict.get]. rewrite (IH Hrest).
    destruct (String.eqb_spec k key) as [->|Hk].
    + apply (dict_get_none (V:=json)) in Hkey. rewrite Hkey.
      apply dict_get_set_same.
    + now rewrite !(dict_get_set_other _ _ _ _ Hk).
Qed.

(** The keys after the loop: those of the base as they stood, then the
    new keys in the order of [add]. *)
Lemma merge_loop_keys (mv : json -> option json -> json) (add : pydict) :
  Dict.wf add ->
  forall base,
    Dict.keys (merge_loop mv add base) =
    (Dict.keys base ++
     List.filter (fun k => negb (Dict.mem k base)) (Dict.keys add))%list.
Proof.
  unfold Dict.wf. induction add as [|[key value] add IH]; intros Hwf base.
  - simpl. now rewrite app_nil_r.
  - simpl in Hwf. inversion Hwf as [|? ? Hkey Hrest]; subst.
    cbn [merge_loop].
    change (Dict.keys ((key, value) :: add)) with (key :: Dict.keys add).
    cbn [List.filter].
    rewrite (IH Hrest). unfold Dict.mem at 2.
    destruct (Dict.get key base) as [b|] eqn:Hb.
    + assert (Hin : In key (Dict.keys base)).
      { destruct (in_dec string_dec key (Dict.keys base)) as [H|H]; [exact H|].
        apply dict_get_none in H. congruence. }
      rewrite dict_set_present by assumption. cbn [negb]. f_equal.
      apply filter_ext_in. intros k Hk. unfold Dict.mem.
      rewrite dict_get_set_other; [reflexivity|]. intros ->. tauto.
    + apply dict_get_none in Hb.
      rewrite dict_set_absent by assumption. cbn [negb].
      unfold Dict.keys at 1. rewrite map_app, <- app_assoc. f_equal.
      cbn [map fst app]. f_equal.
      apply filter_ext_in. intros k Hk. unfold Dict.mem.
      assert (Hne : k <> key) by (intros ->; tauto).
      rewrite <- (dict_set_absent key (mv value None) base Hb).
      now rewrite dict_get_set_other.
Qed.

Lemma merge_loop_wf (mv : json -> option json -> json) (add : pydict) :
  forall base, Dict.wf base -> Dict.wf (merge_loop mv add base).
Proof.
  induction add as [|[key value] add IH]; intros base Hb; simpl.
  - exact Hb.
  - apply IH. now apply dict_set_wf.
Qed.


Lemma merge_value_not_dict (x : json) (b : option json) :
  (forall d, x <> JDict d) -> merge_value x b = x.
Proof.
  intros H. destruct x; try reflexivity. now exfalso; apply (H d).
Qed.


(** A dictionary that already holds, under every key of [add], a value
    that the merge leaves as it is, is left as it is by the loop. *)
Lemma merge_loop_stable (mv : json -> option json -> json) (add : pydict) :
  forall R,
    (forall k x, In (k, x) add ->
                 exists y, Dict.get k R = Some y /\ mv x (Some y) = y) ->
    merge_loop mv add R = R.
Proof.
  induction add as [|[key value] add IH]; intros R H; [reflexivity|].
  cbn [merge_loop].
  destruct (H key value (or_introl eq_refl)) as (y & Hy & E).
  rewrite Hy, E, (dict_set_same_value _ _ _ Hy).
  apply IH. intros k x Hin. apply H. now right.
Qed.

Lemma wf_get_in (d : pydict) (k : string) (x : json) :
  Dict.wf d -> In (k, x) d -> Dict.get k d = Some x.
Proof.
  unfold Dict.wf. induction d as [|[k' x'] d IH]; simpl; [tauto|].
  intros Hwf. inversion Hwf as [|? ? Hk Hrest]; subst.
  intros [E|Hin].
  - injection E as -> ->. now rewrite String.eqb_refl.
  - destruct (String.eqb_spec k k') as [->|Hne]; [|now apply IH].
    exfalso. apply Hk. change k' with (fst (k', x)). now apply in_map.
Qed.

Lemma distinct_keys_dict (d : pydict) :
  distinct_keys (JDict d) <->
  Dict.wf d /\ Forall (fun kv => distinct_keys (snd kv)) d.
Proof.
  unfold Dict.wf, Dict.keys. cbn [distinct_keys].
  assert (E : forall d : pydict,
             (fix all (d : list (string * json)) : Prop :=
                match d with
                | [] => True
                | (_, x) :: d' => distinct_keys x /\ all d'
                end) d <-> Forall (fun kv => distinct_keys (snd kv)) d).
  { clear d. induction d as [|[k x] d IH].
    - split; [constructor | trivial].
    - rewrite IH. split.
      + intros [H1 H2]. now constructor.
      + intros H. now inversion H. }
  now rewrite E.
Qed.

(** Induction on a JSON value, through the values of its dictionaries. *)
Lemma json_dict_ind (P : json -> Prop) :
  (forall v, (forall d, v <> JDict d) -> P v) ->
  (forall d, Forall (fun kv => P (snd kv)) d -> P (JDict d)) ->
  forall v, P v.
Proof.
  intros Hatom Hdict. fix IH 1.
  intros [ | b | z | r | s | l | d]; try (apply Hatom; discriminate).
  apply Hdict. induction d as [|[k x] d IHd]; constructor; [apply IH | exact IHd].
Qed.

(** A value merged into a copy of itself is that value. *)
Lemma merge_value_self (x : json) :
  distinct_keys x -> merge_value x (Some x) = x.
Proof.
  induction x as [v Hv | d IH] using json_dict_ind; intros Hx.
  - now apply merge_value_not_dict.
  - apply distinct_keys_dict in Hx. destruct Hx as [Hwf Hall].
    cbn [merge_value]. f_equal.
    apply merge_loop_stable. intros k x Hin. exists x.
    split; [now apply wf_get_in|].
    rewrite Forall_forall in IH, Hall.
    exact (IH _ Hin (Hall _ Hin)).
Qed.

(** Merging a value a second time changes nothing. *)
Lemma merge_value_twice (x : json) :
  distinct_keys x ->
  forall b, merge_value x (Some (merge_value x b)) = merge_value x b.
Proof.
  induction x as [v Hv | d IH] using json_dict_ind; intros Hx b.
  - now rewrite !merge_value_not_dict.
  - pose proof Hx as Hx'.
    apply distinct_keys_dict in Hx. destruct Hx as [Hwf Hall].
    rewrite Forall_forall in IH, Hall.
    assert (Hloop : forall base,
               merge_loop merge_value d (merge_loop merge_value d base) =
               merge_loop merge_value d base).
    { intros base. apply merge_loop_stable. intros k x Hin.
      exists (merge_value x (Dict.get k base)). split.
      - now rewrite (merge_loop_get _ _ Hwf), (wf_get_in _ _ _ Hwf Hin).
      - exact (IH _ Hin (Hall _ Hin) (Dict.get k base)). }
    destruct b as [[ | | | | | |base]|];
      try exact (merge_value_self _ Hx').
    cbn [merge_value]. now rewrite Hloop.
Qed.


End Merge.

(* ================================================================== *)
(** * Stripping *)

Section Stripping.

Local Open Scope string_scope.

Variable p : ascii -> bool.

Lemma snoc_cases (s : string) :
  s = "" \/ exists init c, s = init ++ String c "".
Proof.
  induction s as [|a s IH]; [now left | right].
  destruct IH as [->|(init & c & ->)].
  - now exists "", a.
  - now exists (String a init), c.
Qed.

Lemma snoc_inj (s t : string) (c d : ascii) :
  s ++ String c "" = t ++ String d "" -> s = t /\ c = d.
Proof.
  revert t. induction s as [|a s IH]; intros [|b t] H; simpl in H.
  - injection H as ->. auto.
  - injection H as -> H. destruct t; discriminate.
  - injection H as -> H. destruct s; discriminate.
  - injection H as -> H. destruct (IH _ H) as [-> ->]. auto.
Qed.

Lemma forallb_snoc (q : ascii -> bool) (s : string) (c : ascii) :
  Str.forallb q (s ++ String c "") = Str.forallb q s && q c.
Proof. rewrite forallb_append. simpl. now rewrite andb_true_r. Qed.

Lemma lstrip_first (s : string) (c : ascii) (rest : string) :
  Txt.lstrip_by p s = String c rest -> p c = false.
Proof.
  induction s as [|a s IH]; simpl; [discriminate|].
  destruct (p a) eqn:Ha; [exact IH|].
  intros [= -> _]. exact Ha.
Qed.

Lemma lstrip_suffix (s : string) :
  exists pre, s = pre ++ Txt.lstrip_by p s /\ Str.forallb p pre = true.
Proof.
  induction s as [|a s (pre & E & Hp)]; simpl.
  - now exists "".
  - destruct (p a) eqn:Ha.
    + exists (String a pre). simpl. rewrite Ha, Hp. split; [congruence | reflexivity].
    + now exists "".
Qed.


Lemma rstrip_last (s : string) :
  forall init c, Txt.rstrip_by p s = init ++ String c "" -> p c = false.
Proof.
  induction s as [|a s IH]; intros init c; simpl.
  - destruct init; discriminate.
  - destruct (Txt.rstrip_by p s) as [|b r] eqn:E.
    + destruct (p a) eqn:Ha.
      * destruct init; discriminate.
      * destruct init as [|x init]; simpl.
        -- intros [= ->]. exact Ha.
        -- intros [= _ H]. destruct init; discriminate.
    + destruct init as [|x init]; simpl.
      * discriminate.
      * intros [= _ H]. exact (IH init c H).
Qed.


Lemma rstrip_empty (s : string) :
  Txt.rstrip_by p s = "" <-> Str.forallb p s = true.
Proof.
  induction s as [|a s IH]; simpl; [tauto|].
  destruct (Txt.rstrip_by p s) as [|b r].
  - destruct (p a); simpl.
    + rewrite <- IH. tauto.
    + split; discriminate.
  - split; [discriminate|]. rewrite andb_true_iff. intros [_ H].
    apply IH in H. discriminate.
Qed.

Lemma lstrip_empty (s : string) :
  Txt.lstrip_by p s = "" <-> Str.forallb p s = true.
Proof.
  induction s as [|a s IH]; simpl; [tauto|].
  destruct (p a); simpl; [exact IH | split; discriminate].
Qed.


Lemma strip_empty (s : string) :
  Txt.strip_by p s = "" <-> Str.forallb p s = true.
Proof.
  unfold Txt.strip_by. rewrite lstrip_empty. split.
  - intros H. apply rstrip_empty.
    destruct (snoc_cases (Txt.rstrip_by p s)) as [E|(init & c & E)];
      [exact E|].
    pose proof (rstrip_last s init c E) as Hc.
    rewrite E, forallb_snoc, Hc, andb_false_r in H. discriminate.
  - intros H. apply rstrip_empty in H. now rewrite H.
Qed.

Lemma strip_first (s : string) (c : ascii) (rest : string) :
  Txt.strip_by p s = String c rest -> p c = false.
Proof. apply lstrip_first. Qed.

Lemma strip_last (s init : string) (c : ascii) :
  Txt.strip_by p s = init ++ String c "" -> p c = false.
Proof.
  unfold Txt.strip_by. intros H.
  destruct (lstrip_suffix (Txt.rstrip_by p s)) as (pre & E & _).
  rewrite H, <- append_assoc in E.
  exact (rstrip_last s _ c E).
Qed.

(** The characters that [q] holds for are kept apart by the three
    operations. *)
Lemma lstrip_forallb (q : ascii -> bool) (s : string) :
  Str.forallb q s = true -> Str.forallb q (Txt.lstrip_by p s) = true.
Proof.
  induction s as [|a s IH]; simpl; [reflexivity|].
  rewrite andb_true_iff. intros [Ha Hs].
  destruct (p a); [now apply IH | simpl; now rewrite Ha, Hs].
Qed.

Lemma rstrip_forallb (q : ascii -> bool) (s : string) :
  Str.forallb q s = true -> Str.forallb q (Txt.rstrip_by p s) = true.
Proof.
  induction s as [|a s IH]; simpl; [reflexivity|].
  rewrite andb_true_iff. intros [Ha Hs]. specialize (IH Hs).
  destruct (Txt.rstrip_by p s) as [|b r].
  - destruct (p a); simpl; [reflexivity | now rewrite Ha].
  - change (Str.forallb q (String a (String b r)))
      with (q a && Str.forallb q (String b r)).
    now rewrite Ha, IH.
Qed.

Lemma strip_forallb (q : ascii -> bool) (s : string) :
  Str.forallb q s = true -> Str.forallb q (Txt.strip_by p s) = true.
Proof. intros H. now apply lstrip_forallb, rstrip_forallb. Qed.

End Stripping.

Section StrippingTwice.

Local Open Scope string_scope.


Lemma strip_trimmed (s : string) : Txt.trimmed (Txt.strip s).
Proof.
  split.
  - intros c rest E. exact (strip_first _ s c rest E).
  - intros init c E. exact (strip_last _ s init c E).
Qed.

Lemma filter_forallb (q r : ascii -> bool) (s : string) :
  (forall c, r c = true -> q c = true) ->
  Str.forallb q (Str.filter r s) = true.
Proof.
  intros H. induction s as [|a s IH]; simpl; [reflexivity|].
  destruct (r a) eqn:Ha; [|exact IH].
  simpl. now rewrite (H a Ha), IH.
Qed.

Lemma forallb_filter_back (q r : ascii -> bool) (s : string) :
  (forall c, r c = false -> q c = true) ->
  Str.forallb q (Str.filter r s) = Str.forallb q s.
Proof.
  intros H. induction s as [|a s IH]; simpl; [reflexivity|].
  destruct (r a) eqn:Ha; simpl; rewrite IH; [reflexivity|].
  now rewrite (H a Ha).
Qed.



End StrippingTwice.

(* ================================================================== *)
(** * [schema._clean_str] and [file_io.read_txt_line] *)

Section CleaningText.

Local Open Scope string_scope.

Lemma clean_str_some (s : string) :
  s <> "" ->
  _clean_str (Some s) =
  Txt.strip (Txt.remove_char Str.newline (Txt.remove_char Txt.carriage_return s)).
Proof. destruct s; [congruence | reflexivity]. Qed.

Lemma removed_is_space (c0 : ascii) :
  Txt.isspace c0 = true ->
  forall c, negb (Ascii.eqb c c0) = false -> Txt.isspace c = true.
Proof.
  intros H c E. apply negb_false_iff, Ascii.eqb_eq in E. now subst.
Qed.

(** X1. Whatever it is given, [_clean_str] returns a text without
    carriage return or line feed that neither starts nor ends with a
    white space character. *)
Theorem clean_str_is_clean (str_to_clean : option string) :
  Txt.trimmed (_clean_str str_to_clean) /\
  Str.forallb (fun c => negb (Txt.is_line_end c)) (_clean_str str_to_clean)
  = true.
Proof.
  assert (Nan : Txt.trimmed "Nan").
  { split.
    - intros c rest [= <- _]. reflexivity.
    - intros init c E. change "Nan" with ("Na" ++ String "n"%char "") in E.
      apply snoc_inj in E. destruct E as [_ <-]. reflexivity. }
  destruct str_to_clean as [[|a s]|]; try (split; [exact Nan | reflexivity]).
  rewrite clean_str_some by discriminate.
  split; [apply strip_trimmed|].
  apply strip_forallb.
  set (t := Txt.remove_char Txt.carriage_return (String a s)).
  assert (Ht : Str.forallb
                 (fun c => negb (Ascii.eqb c Txt.carriage_return)) t = true)
    by (apply filter_forallb; auto).
  unfold Txt.remove_char at 1.
  clearbody t. induction t as [|c t IH]; simpl; [reflexivity|].
  simpl in Ht. apply andb_true_iff in Ht. destruct Ht as [Hc Ht].
  destruct (Ascii.eqb c Str.newline) eqn:E; simpl; [now apply IH|].
  unfold Txt.is_line_end at 1. rewrite E. simpl. rewrite Hc. now apply IH.
Qed.

(** X2. [_clean_str] returns the empty text exactly for a non-empty text
    of white space only; None and the empty text give ["Nan"] instead. *)
Theorem clean_str_empty_iff (str_to_clean : option string) :
  _clean_str str_to_clean = "" <->
  exists s, str_to_clean = Some s /\ s <> "" /\
            Str.forallb Txt.isspace s = true.
Proof.
  assert (E : forall s,
             Str.forallb Txt.isspace
               (Txt.remove_char Str.newline
                  (Txt.remove_char Txt.carriage_return s)) =
             Str.forallb Txt.isspace s).
  { intros s. unfold Txt.remove_char.
    rewrite forallb_filter_back by (now apply removed_is_space).
    now rewrite forallb_filter_back by (now apply removed_is_space). }
  split.
  - destruct str_to_clean as [[|a s]|]; try discriminate.
    rewrite clean_str_some by discriminate. intros H.
    apply strip_empty in H. rewrite E in H.
    exists (String a s). repeat split; [discriminate | exact H].
  - intros (s & -> & Hs & Hall).
    rewrite clean_str_some by assumption.
    apply strip_empty. now rewrite E.
Qed.

Lemma clean_str_empty_iff_witness :
  _clean_str (Some (String Str.newline " ")) = "".
Proof.
  apply (proj2 (clean_str_empty_iff (Some (String Str.newline " ")))).
  exists (String Str.newline " ").
  split; [reflexivity | split; [discriminate | reflexivity]].
Defined.


End CleaningText.

(* ================================================================== *)
(** * [__merge_dicts_recursive] and [write_merged_dict_to_json] *)

Section MergeProperties.

(** X4. After the merge, a key of [add_dict] holds the merge of the two
    dictionaries when both sides hold a dictionary under it, and the
    value of [add_dict] in every other case; a key that [add_dict] does
    not have holds what it held before. *)
Theorem merge_lookup (add_dict base_dict : pydict) (k : string) :
  Dict.wf add_dict ->
  Dict.get k (merge_dicts_recursive add_dict base_dict) =
  match Dict.get k add_dict, Dict.get k base_dict with
  | Some (JDict a), Some (JDict b) => Some (JDict (merge_dicts_recursive a b))
  | Some value, _ => Some value
  | None, held => held
  end.
Proof.
  intros Hwf. unfold merge_dicts_recursive.
  rewrite (merge_loop_get _ _ Hwf).
  destruct (Dict.get k add_dict) as [value|]; [|now destruct (Dict.get k base_dict)].
  destruct value; try (now destruct (Dict.get k base_dict)).
  destruct (Dict.get k base_dict) as [[]|]; reflexivity.
Qed.

Lemma merge_lookup_witness :
  Dict.get "issue"
    (merge_dicts_recursive
       [("issue", JDict [("title", JStr "Crash")]); ("count", JInt 2)]
       [("count", JInt 1); ("issue", JDict [("body", JStr "It crashes.")])])
  = Some (JDict (merge_dicts_recursive [("title", JStr "Crash")]
                   [("body", JStr "It crashes.")])).
Proof.
  apply (merge_lookup
           [("issue", JDict [("title", JStr "Crash")]); ("count", JInt 2)]
           [("count", JInt 1); ("issue", JDict [("body", JStr "It crashes.")])]
           "issue").
  unfold Dict.wf. simpl. repeat constructor; simpl; intuition discriminate.
Defined.

(** X5. The merge loses no key of the base and moves none: the keys
    afterwards are those of the base in their order, followed by the
    keys that only [add_dict] has, in the order of [add_dict]; they are
    distinct if those of the base are. *)
Theorem merge_keeps_keys (add_dict base_dict : pydict) :
  Dict.wf add_dict ->
  Dict.wf base_dict ->
  Dict.keys (merge_dicts_recursive add_dict base_dict) =
  (Dict.keys base_dict ++
   List.filter (fun k => negb (Dict.mem k base_dict)) (Dict.keys add_dict))%list
  /\ Dict.wf (merge_dicts_recursive add_dict base_dict).
Proof.
  intros Ha Hb. split.
  - now apply merge_loop_keys.
  - now apply merge_loop_wf.
Qed.

Lemma merge_keeps_keys_witness :
  Dict.keys
    (merge_dicts_recursive
       [("issue", JDict [("title", JStr "Crash")]); ("state", JStr "open")]
       [("count", JInt 1); ("issue", JDict [("body", JStr "It crashes.")])])
  = ["count"; "issue"; "state"].
Proof.
  refine (proj1 (merge_keeps_keys
           [("issue", JDict [("title", JStr "Crash")]); ("state", JStr "open")]
           [("count", JInt 1); ("issue", JDict [("body", JStr "It crashes.")])]
           _ _));
    unfold Dict.wf; simpl; repeat constructor; simpl; intuition discriminate.
Defined.

(** X6. Merging the same dictionary a second time changes nothing. *)
Theorem merge_is_idempotent (add_dict base_dict : pydict) :
  distinct_keys (JDict add_dict) ->
  merge_dicts_recursive add_dict (merge_dicts_recursive add_dict base_dict) =
  merge_dicts_recursive add_dict base_dict.
Proof.
  intros H.
  pose proof (merge_value_twice (JDict add_dict) H (Some (JDict base_dict)))
    as E.
  cbn [merge_value] in E. injection E as E. exact E.
Qed.

Lemma merge_is_idempotent_witness :
  merge_dicts_recursive
    [("issue", JDict [("title", JStr "Crash")]); ("count", JInt 2)]
    (merge_dicts_recursive
       [("issue", JDict [("title", JStr "Crash")]); ("count", JInt 2)]
       [("count", JInt 1); ("issue", JDict [("body", JStr "It crashes.")])])
  = merge_dicts_recursive
      [("issue", JDict [("title", JStr "Crash")]); ("count", JInt 2)]
      [("count", JInt 1); ("issue", JDict [("body", JStr "It crashes.")])].
Proof.
  apply (merge_is_idempotent
           [("issue", JDict [("title", JStr "Crash")]); ("count", JInt 2)]).
  simpl. repeat split; repeat constructor; simpl; intuition discriminate.
Defined.







End MergeProperties.

(* ================================================================== *)
(** * [get_email_content_dict] and [get_cleaned_email_dict] *)

Section ContentDict.

Lemma email_dict_set_fresh {B : Type} (index : Z) (entry : email B)
  (d : email_dict B) :
  ~ In index (keys d) -> email_dict_set index entry d = d ++ [(index, entry)].
Proof.
  induction d as [|[k e] d IH]; simpl; [reflexivity|].
  intros H. destruct (Z.eqb_spec index k) as [->|Hk]; [tauto|].
  rewrite IH; tauto.
Qed.

Lemma numbered_keys_ge (email_list : list message) :
  forall index k, In k (keys (numbered index email_list)) -> (index <= k)%Z.
Proof.
  induction email_list as [|msg rest IH]; intros index k; simpl; [tauto|].
  destruct (plain_part msg); simpl.
  - intros [<-|H]; [lia | apply IH in H; lia].
  - intros H. apply IH in H. lia.
Qed.

Lemma content_loop_numbered (email_list : list message) :
  Forall (fun msg => plain_part msg <> None) email_list ->
  forall acc index,
    (forall k, In k (keys acc) -> (k < index)%Z) ->
    content_loop email_list acc index =
    Done (acc ++ numbered index email_list).
Proof.
  induction 1 as [|msg rest Hmsg _ IH]; intros acc index Hacc; simpl.
  - now rewrite app_nil_r.
  - destruct (plain_part msg) as [text|]; [|congruence].
    rewrite email_dict_set_fresh.
    + rewrite IH.
      * now rewrite <- app_assoc.
      * intros k. unfold keys. rewrite map_app, in_app_iff. simpl.
        intros [H|[<-|[]]]; [apply Hacc in H|]; lia.
    + intros H. apply Hacc in H. lia.
Qed.

Lemma content_loop_no_plain (email_list : list message) :
  Exists (fun msg => plain_part msg = None) email_list ->
  forall acc index, content_loop email_list acc index = Fail AttributeError.
Proof.
  induction email_list as [|msg rest IH]; intros H acc index.
  - inversion H.
  - simpl. destruct (plain_part msg) as [text|] eqn:E; [|reflexivity].
    apply IH. inversion H; subst; [congruence | assumption].
Qed.

Lemma numbered_keys (email_list : list message) :
  Forall (fun msg => plain_part msg <> None) email_list ->
  forall index,
    keys (numbered index email_list) =
    map (fun i => (index + Z.of_nat i)%Z) (seq 0 (List.length email_list)).
Proof.
  induction 1 as [|msg rest Hmsg _ IH]; intros index; simpl; [reflexivity|].
  destruct (plain_part msg) as [text|]; [|congruence].
  simpl. rewrite IH, Z.add_0_r. f_equal.
  rewrite <- seq_shift, map_map. apply map_ext. intros i. lia.
Qed.

Lemma numbered_lookup (email_list : list message) :
  Forall (fun msg => plain_part msg <> None) email_list ->
  forall index i msg text,
    nth_error email_list i = Some msg ->
    plain_part msg = Some text ->
    lookup (index + Z.of_nat i)%Z (numbered index email_list) =
    Some (Email (hdr_date msg) (hdr_subject msg) text).
Proof.
  induction 1 as [|m rest Hm _ IH]; intros index i msg text Hi Ht.
  - destruct i; discriminate.
  - simpl. destruct (plain_part m) as [t|] eqn:Em; [|congruence].
    destruct i as [|i]; simpl in Hi.
    + injection Hi as ->. rewrite Ht in Em. injection Em as ->.
      simpl. now rewrite Z.add_0_r, Z.eqb_refl.
    + cbn [lookup].
      destruct (Z.eqb_spec (index + Z.of_nat (S i)) index) as [E|_]; [lia|].
      replace (index + Z.of_nat (S i))%Z with (index + 1 + Z.of_nat i)%Z by lia.
      now apply IH.
Qed.

Lemma plain_dec (email_list : list message) :
  Forall (fun msg => plain_part msg <> None) email_list \/
  Exists (fun msg => plain_part msg = None) email_list.
Proof.
  induction email_list as [|msg rest [IH|IH]].
  - left. constructor.
  - destruct (plain_part msg) eqn:E.
    + left. constructor; [congruence | assumption].
    + right. now constructor.
  - right. now constructor 2.
Qed.

Lemma content_dict_entries_aux (email_list : list message) :
  Forall (fun msg => plain_part msg <> None) email_list ->
  get_email_content_dict email_list = Done (numbered 0 email_list) /\
  keys (numbered 0 email_list) = first_keys (List.length email_list) /\
  forall i msg text,
    nth_error email_list i = Some msg ->
    plain_part msg = Some text ->
    lookup (Z.of_nat i) (numbered 0 email_list) =
    Some (Email (hdr_date msg) (hdr_subject msg) text).
Proof.
  intros H. split; [|split].
  - unfold get_email_content_dict.
    now rewrite (content_loop_numbered _ H [] 0%Z) by (intros k []).
  - now rewrite (numbered_keys _ H).
  - intros i msg text Hi Ht.
    exact (numbered_lookup _ H 0%Z i msg text Hi Ht).
Qed.

(** X10. When every message has a plain part, [get_email_content_dict]
    returns a dictionary whose keys are 0, 1, ..., n - 1 in this order,
    and under the key i the date, the subject and the plain text of the
    message at position i of the list. *)
Theorem content_dict_entries (email_list : list message) :
  Forall (fun msg => plain_part msg <> None) email_list ->
  exists d,
    get_email_content_dict email_list = Done d /\
    keys d = first_keys (List.length email_list) /\
    forall i msg text,
      nth_error email_list i = Some msg ->
      plain_part msg = Some text ->
      lookup (Z.of_nat i) d = Some (Email (hdr_date msg) (hdr_subject msg) text).
Proof.
  intros H. exists (numbered 0 email_list).
  exact (content_dict_entries_aux _ H).
Qed.

Lemma content_dict_entries_witness :
  exists d,
    get_email_content_dict
      [Message "Mon, 02 Nov 2026 10:00:00 +0000" "First" (Some "one");
       Message "Mon, 02 Nov 2026 11:00:00 +0000" "Second" (Some "two")]
    = Done d /\
    keys d = [0%Z; 1%Z].
Proof.
  destruct (content_dict_entries
              [Message "Mon, 02 Nov 2026 10:00:00 +0000" "First" (Some "one");
               Message "Mon, 02 Nov 2026 11:00:00 +0000" "Second" (Some "two")])
    as (d & E & K & _).
  - repeat constructor; discriminate.
  - exists d. split; [exact E | exact K].
Defined.

(** X11. One message without a plain part, among messages whose plain
    part, where there is one, is read: [get_email_content_dict] ends in
    [AttributeError] for the whole list, and no dictionary is returned
    for the other messages, those in front of it or those after it. *)
Theorem content_dict_needs_plain_part (before after : list message)
  (msg : message) :
  plain_part msg = None ->
  get_email_content_dict (before ++ msg :: after) = Fail AttributeError.
Proof.
  intros Hmsg. unfold get_email_content_dict.
  apply content_loop_no_plain. apply Exists_app. right. now left.
Qed.

Lemma content_dict_needs_plain_part_witness :
  get_email_content_dict
    [Message "Mon, 02 Nov 2026 10:00:00 +0000" "First" (Some "one");
     Message "Mon, 02 Nov 2026 11:00:00 +0000" "Second" None;
     Message "Mon, 02 Nov 2026 12:00:00 +0000" "Third" (Some "three")]
  = Fail AttributeError.
Proof.
  apply (content_dict_needs_plain_part
           [Message "Mon, 02 Nov 2026 10:00:00 +0000" "First" (Some "one")]
           [Message "Mon, 02 Nov 2026 12:00:00 +0000" "Third" (Some "three")]
           (Message "Mon, 02 Nov 2026 11:00:00 +0000" "Second" None)).
  reflexivity.
Defined.

Lemma lookup_parse_numbered (d : email_dict string) (k : Z) (e : email string) :
  lookup k d = Some e ->
  lookup k (parse_email_bodies d) =
  Some (Email (date e) (subject e) (parse_body (body e))).
Proof. intros H. now rewrite lookup_parse_email_bodies, H. Qed.

(** X12. What [get_cleaned_email_dict] returns for a session: the sender
    is a key of [SENDER_DICT], and with the messages that [fetch] gave
    for the positions found, in the order of the positions, the keys
    are 0, 1, ..., m - 1 whatever positions gave nothing, and the key i
    holds the date and the subject of the i-th message and the fragments
    of its plain text. *)
Theorem cleaned_dict_of_session (session : imap_session) (sender : string)
  (d : email_dict (list string)) :
  get_cleaned_email_dict session sender = Done d ->
  exists criterion,
    Dict.get sender SENDER_DICT = Some criterion /\
    let email_list := fetch_all session (search_from session criterion) in
    keys d = first_keys (List.length email_list) /\
    forall i msg,
      nth_error email_list i = Some msg ->
      exists text,
        plain_part msg = Some text /\
        lookup (Z.of_nat i) d =
        Some (Email (hdr_date msg) (hdr_subject msg) (parse_body text)).
Proof.
  unfold get_cleaned_email_dict, get_email_obj_list, item.
  destruct (Dict.get sender SENDER_DICT) as [criterion|]; [|discriminate].
  cbn [rbind]. intros H. exists criterion. split; [reflexivity|].
  set (email_list := fetch_all session (search_from session criterion)) in *.
  destruct (plain_dec email_list) as [Hp|Hp].
  - destruct (content_dict_entries_aux email_list Hp) as (E & K & L).
    rewrite E in H. cbn [rbind] in H. injection H as <-.
    split; [now rewrite keys_parse_email_bodies|].
    intros i msg Hi.
    destruct (plain_part msg) as [text|] eqn:Ht.
    + exists text. split; [reflexivity|].
      exact (lookup_parse_numbered _ _ _ (L i msg text Hi Ht)).
    + exfalso. rewrite Forall_forall in Hp.
      exact (Hp msg (nth_error_In _ _ Hi) Ht).
  - unfold get_email_content_dict in H.
    rewrite (content_loop_no_plain _ Hp) in H. discriminate.
Qed.

Lemma cleaned_dict_of_session_witness :
  exists criterion,
    Dict.get "github" SENDER_DICT = Some criterion /\
    let email_list :=
      fetch_all sample_inbox (search_from sample_inbox criterion) in
    keys sample_cleaned = first_keys (List.length email_list) /\
    forall i msg,
      nth_error email_list i = Some msg ->
      exists text,
        plain_part msg = Some text /\
        lookup (Z.of_nat i) sample_cleaned =
        Some (Email (hdr_date msg) (hdr_subject msg) (parse_body text)).
Proof.
  apply (cleaned_dict_of_session sample_inbox "github" sample_cleaned).
  vm_compute. reflexivity.
Defined.

End ContentDict.

(* ================================================================== *)
(** * [create_extractor_input], [exe_extractor] and [main] as a whole *)

Section Extractor.

Local Open Scope string_scope.

Lemma after_last_slash_none_iff (w : string) :
  Str.after_last_slash w = None <-> Str.forallb not_slash w = true.
Proof.
  split; [|apply after_last_slash_none].
  induction w as [|c w IH]; simpl; [reflexivity|].
  destruct (Str.after_last_slash w); [discriminate|].
  unfold not_slash at 1.
  destruct (Ascii.eqb c Str.slash); [discriminate|].
  intros _. now rewrite IH.
Qed.

(** What [extractor_cfg |= {"repo": ..., "range": ...}] holds. *)
Lemma extractor_update (d : pydict) (cfg_repo : string) (issue_num_list : list Z) :
  let d' :=
    Dict.update d
      [("repo", JStr cfg_repo); ("range", JList (map JInt issue_num_list))] in
  Dict.get "repo" d' = Some (JStr cfg_repo) /\
  Dict.get "range" d' = Some (JList (map JInt issue_num_list)) /\
  (forall k, k <> "repo" -> k <> "range" -> Dict.get k d' = Dict.get k d) /\
  (Dict.wf d -> Dict.wf d').
Proof.
  cbn [Dict.update fold_left fst snd]. repeat split.
  - rewrite dict_get_set_other by discriminate. apply dict_get_set_same.
  - apply dict_get_set_same.
  - intros k H1 H2. now rewrite !dict_get_set_other.
  - intros H. now apply dict_set_wf, dict_set_wf.
Qed.

(** X13. With the sections and the keys ["output_dir"] and ["repo"] in
    place, [exe_extractor] ends in [IndexError] exactly when the
    repository has no slash, and then before anything is created,
    written or run. *)
Theorem exe_extractor_needs_slash (cfg : cfg_metadict)
  (parser_cfg : list (string * string)) (dir cfg_repo : string)
  (issue_list : list Z) :
  parser_section cfg = Some parser_cfg ->
  Dict.get "output_dir" parser_cfg = Some dir ->
  Dict.get "repo" parser_cfg = Some cfg_repo ->
  (Str.forallb not_slash cfg_repo = true <->
   snd (exe_extractor cfg issue_list) = Fail (Builtin IndexError)) /\
  (Str.forallb not_slash cfg_repo = true -> fst (exe_extractor cfg issue_list) = []).
Proof.
  intros Hp Hd Hr. unfold exe_extractor, create_extractor_input, item.
  rewrite Hp. cbn [section]. rewrite Hd, Hr.
  unfold Str.rsplit_slash_1.
  destruct (Str.after_last_slash cfg_repo) as [name|] eqn:E.
  - assert (Hn : Str.forallb not_slash cfg_repo <> true).
    { intros H. apply after_last_slash_none_iff in H. congruence. }
    split; [split|]; [tauto | | tauto].
    cbn [of_outcome]. intros H. exfalso.
    destruct (extractor_section cfg) as [[]|]; cbn in H; try discriminate.
    destruct (Dict.get "extractor_exe" parser_cfg); cbn in H; discriminate.
  - apply after_last_slash_none_iff in E. cbn. tauto.
Qed.

Lemma exe_extractor_needs_slash_witness :
  exe_extractor
    (Metadict (Some [("output_dir", "out"); ("repo", "widget")])
              (Some (JDict [])))
    [3%Z; 9%Z]
  = ([], Fail (Builtin IndexError)).
Proof.
  destruct (exe_extractor_needs_slash
              (Metadict (Some [("output_dir", "out"); ("repo", "widget")])
                        (Some (JDict [])))
              [("output_dir", "out"); ("repo", "widget")] "out" "widget"
              [3%Z; 9%Z] eq_refl eq_refl eq_refl) as [[H _] H'].
  specialize (H eq_refl). specialize (H' eq_refl).
  destruct (exe_extractor _ _) as [evs r]. cbn in H, H'. now subst.
Defined.

(** X14. With a repository [owner/name], the keys ["output_dir"] and
    ["extractor_exe"] and a dictionary as section ["extractor"],
    [exe_extractor] makes the directory [output_dir/name], writes there
    the file [extractor_input.json] and runs the extractor on that file,
    in this order. The dictionary written has the repository under
    ["repo"], the issue list under ["range"], and every other key of
    the section with the value it had. *)
Theorem exe_extractor_trace (parser_cfg : list (string * string))
  (d : pydict) (dir owner name extractor_exe : string) (issue_list : list Z) :
  Dict.get "output_dir" parser_cfg = Some dir ->
  Dict.get "repo" parser_cfg = Some (owner ++ "/" ++ name) ->
  Str.forallb not_slash name = true ->
  Dict.get "extractor_exe" parser_cfg = Some extractor_exe ->
  let out_path := (dir ++ "/" ++ name) ++ "/extractor_input.json" in
  exists d',
    exe_extractor (Metadict (Some parser_cfg) (Some (JDict d))) issue_list =
    ([MakeDirs (dir ++ "/" ++ name);
      WriteJson (JDict d') out_path;
      System ("python " ++ extractor_exe ++ " " ++ out_path)],
     Done tt) /\
    Dict.get "repo" d' = Some (JStr (owner ++ "/" ++ name)) /\
    Dict.get "range" d' = Some (JList (map JInt issue_list)) /\
    forall k, k <> "repo" -> k <> "range" -> Dict.get k d' = Dict.get k d.
Proof.
  intros Hd Hr Hn He out_path.
  exists (Dict.update d
            [("repo", JStr (owner ++ "/" ++ name));
             ("range", JList (map JInt issue_list))]).
  destruct (extractor_update d (owner ++ "/" ++ name) issue_list)
    as (G1 & G2 & G3 & _).
  split; [|auto].
  unfold exe_extractor, create_extractor_input, item.
  cbn [section parser_section extractor_section]. rewrite Hd, Hr, He.
  unfold Str.rsplit_slash_1.
  change (owner ++ "/" ++ name) with (owner ++ String Str.slash name).
  rewrite (after_last_slash_app owner name Hn). reflexivity.
Qed.

Lemma exe_extractor_trace_witness :
  exists d',
    exe_extractor
      (Metadict
         (Some [("output_dir", "out"); ("repo", "acme/widget");
                ("extractor_exe", "extractor.py")])
         (Some (JDict [("state", JStr "open")])))
      [3%Z; 9%Z]
    = ([MakeDirs "out/widget";
        WriteJson (JDict d') "out/widget/extractor_input.json";
        System "python extractor.py out/widget/extractor_input.json"],
       Done tt) /\
    Dict.get "range" d' = Some (JList [JInt 3; JInt 9]) /\
    Dict.get "state" d' = Some (JStr "open").
Proof.
  destruct (exe_extractor_trace
              [("output_dir", "out"); ("repo", "acme/widget");
               ("extractor_exe", "extractor.py")]
              [("state", JStr "open")] "out" "acme" "widget" "extractor.py"
              [3%Z; 9%Z] eq_refl eq_refl eq_refl eq_refl)
    as (d' & E & _ & R & K).
  exists d'. split; [exact E | split; [exact R|]].
  rewrite K; [reflexivity | discriminate | discriminate].
Defined.

(** X15. When only the key ["extractor_exe"] is missing, the directory
    has been made and the input file written by the time [exe_extractor]
    ends in [KeyError]; no command is run. *)
Theorem exe_extractor_missing_exe (parser_cfg : list (string * string))
  (d : pydict) (dir owner name : string) (issue_list : list Z) :
  Dict.get "output_dir" parser_cfg = Some dir ->
  Dict.get "repo" parser_cfg = Some (owner ++ "/" ++ name) ->
  Str.forallb not_slash name = true ->
  Dict.get "extractor_exe" parser_cfg = None ->
  exists d',
    exe_extractor (Metadict (Some parser_cfg) (Some (JDict d))) issue_list =
    ([MakeDirs (dir ++ "/" ++ name);
      WriteJson (JDict d') ((dir ++ "/" ++ name) ++ "/extractor_input.json")],
     Fail (Builtin KeyError)).
Proof.
  intros Hd Hr Hn He.
  exists (Dict.update d
            [("repo", JStr (owner ++ "/" ++ name));
             ("range", JList (map JInt issue_list))]).
  unfold exe_extractor, create_extractor_input, item.
  cbn [section parser_section extractor_section]. rewrite Hd, Hr, He.
  unfold Str.rsplit_slash_1.
  change (owner ++ "/" ++ name) with (owner ++ String Str.slash name).
  rewrite (after_last_slash_app owner name Hn). reflexivity.
Qed.

Lemma exe_extractor_missing_exe_witness :
  exists d',
    exe_extractor
      (Metadict (Some [("output_dir", "out"); ("repo", "acme/widget")])
                (Some (JDict [])))
      [3%Z; 9%Z]
    = ([MakeDirs "out/widget";
        WriteJson (JDict d') "out/widget/extractor_input.json"],
       Fail (Builtin KeyError)).
Proof.
  exact (exe_extractor_missing_exe
           [("output_dir", "out"); ("repo", "acme/widget")] []
           "out" "acme" "widget" [3%Z; 9%Z] eq_refl eq_refl eq_refl eq_refl).
Defined.

(** X16. A run of [main] either stops with an exception before anything
    is created, written or run, or it is the call of the extractor on the
    range found: the connection was made, the e-mails of the sender were
    fetched and cleaned, [get_issue_num_list] returned a list on them,
    and the two numbers handed to the extractor are [int] of the first
    and of the last element of that list. For a repository name of
    letters, digits and [- _ . /] the two numbers are natural numbers.
    Nothing is done outside the program unless an issue range has been
    found. *)
Theorem main_run_effects (server : mail_server) (cfg : cfg_metadict) :
  (exists e, main_run server cfg = ([], Fail e)) \/
  (exists parser_cfg session sender_key cfg_repo email_content_dict
          issue_list lo hi,
      parser_section cfg = Some parser_cfg /\
      get_connection_obj server parser_cfg = Done session /\
      Dict.get "sender" parser_cfg = Some sender_key /\
      Dict.get "repo" parser_cfg = Some cfg_repo /\
      get_cleaned_email_dict session sender_key = Done email_content_dict /\
      get_issue_num_list email_content_dict (Cfg cfg_repo sender_key) =
      Ok issue_list /\
      issue_range issue_list = Ok (lo, hi) /\
      (valid_repo cfg_repo = true -> (0 <= lo)%Z /\ (0 <= hi)%Z) /\
      main_run server cfg = exe_extractor cfg [lo; hi]).
Proof.
  unfold main_run. set (range := rbind _ _).
  destruct range as [[lo hi]|e] eqn:E; [right | left; eauto].
  unfold range in E. clear range.
  destruct (parser_section cfg) as [parser_cfg|] eqn:Ep;
    cbn [section rbind] in E; [|discriminate].
  destruct (get_connection_obj server parser_cfg) as [session|e] eqn:Ec;
    cbn [rbind] in E; [|discriminate].
  unfold item at 1 in E.
  destruct (Dict.get "sender" parser_cfg) as [sender_key|] eqn:Es;
    cbn [rbind] in E; [|discriminate].
  destruct (item SENDER_DICT sender_key) as [criterion|e];
    cbn [rbind] in E; [|discriminate].
  unfold item at 1 in E.
  destruct (Dict.get "repo" parser_cfg) as [cfg_repo|] eqn:Erepo;
    cbn [rbind] in E; [|discriminate].
  destruct (get_cleaned_email_dict session sender_key) as [d|e] eqn:Ed;
    cbn [rbind] in E; [|discriminate].
  destruct (get_issue_num_list d (Cfg cfg_repo sender_key)) as [l|e] eqn:El;
    cbn [rbind of_outcome] in E; [|discriminate].
  destruct (issue_range l) as [[lo' hi']|e] eqn:Er; cbn [of_outcome] in E;
    [|discriminate].
  injection E as -> ->.
  exists parser_cfg, session, sender_key, cfg_repo, d, l, lo, hi.
  repeat (split; [assumption || reflexivity|]).
  split; [|reflexivity].
  intros _.
  destruct (get_issue_num_list_digits d (Cfg cfg_repo sender_key))
    as [(l' & El' & Hl) | El']; [|congruence].
  rewrite El in El'. injection El' as <-.
  destruct (list_eq_dec string_dec l []) as [->|Hne]; [discriminate|].
  destruct (issue_range_digits l Hl Hne)
    as [(lo' & hi' & Er' & Hlo & Hhi) | [Er' _]]; [|congruence].
  rewrite Er in Er'. injection Er' as <- <-. auto.
Qed.

Lemma main_run_effects_witness :
  exists lo hi,
    issue_range ["10"] = Ok (lo, hi) /\
    main_run sample_server sample_metadict =
    exe_extractor sample_metadict [lo; hi].
Proof.
  destruct (main_run_effects sample_server sample_metadict)
    as [(e & E) |
        (p & s & k & r & d & l & lo & hi & Ep & Ec & Es & Er & Ed & El & Ei
           & _ & E)].
  - vm_compute in E. discriminate E.
  - exists lo, hi. split; [|exact E].
    vm_compute in Ep. injection Ep as <-.
    vm_compute in Es. injection Es as <-.
    vm_compute in Er. injection Er as <-.
    vm_compute in Ec. injection Ec as <-.
    vm_compute in Ed. injection Ed as <-.
    vm_compute in El. injection El as <-.
    exact Ei.
Defined.

Lemma sender_dict_keys (key criterion : string) :
  Dict.get key SENDER_DICT = Some criterion -> in_SENDER_DICT key = true.
Proof.
  unfold SENDER_DICT, in_SENDER_DICT, SENDER_DICT_keys.
  cbn [Dict.get existsb].
  destruct (String.eqb key "github"); [reflexivity|].
  destruct (String.eqb key "jira"); [reflexivity | discriminate].
Qed.

(** X23. Once the connection is made and the messages found all have a
    plain part, the run as a whole does what [main] (lines 46-55) does
    on the dictionary of these messages: it calls the extractor on the
    range that [main] returns, and stops without any effect, in the same
    exception, where [main] raises. *)
Theorem main_run_agrees_with_main (server : mail_server) (cfg : cfg_metadict)
  (parser_cfg : list (string * string)) (session : imap_session)
  (sender_key cfg_repo : string) (email_list : list message)
  (email_content_dict : email_dict string) :
  parser_section cfg = Some parser_cfg ->
  get_connection_obj server parser_cfg = Done session ->
  Dict.get "sender" parser_cfg = Some sender_key ->
  Dict.get "repo" parser_cfg = Some cfg_repo ->
  get_email_obj_list session sender_key = Done email_list ->
  get_email_content_dict email_list = Done email_content_dict ->
  main_run server cfg =
  match main email_content_dict (Cfg cfg_repo sender_key) with
  | Ok (lo, hi) => exe_extractor cfg [lo; hi]
  | Raise e => ([], Fail (Builtin e))
  end.
Proof.
  intros Hp Hc Hs Hr Hl Hd.
  unfold main_run, get_cleaned_email_dict, main.
  rewrite Hp. cbn [section rbind]. rewrite Hc. cbn [rbind].
  unfold item at 1. rewrite Hs. cbn [rbind].
  assert (Hk : exists criterion, Dict.get sender_key SENDER_DICT = Some criterion).
  { unfold get_email_obj_list, item in Hl.
    destruct (Dict.get sender_key SENDER_DICT) as [c|]; [eauto | discriminate]. }
  destruct Hk as (criterion & Hk).
  unfold item at 1. rewrite Hk. cbn [rbind].
  unfold item at 1. rewrite Hr. cbn [rbind].
  rewrite Hl. cbn [rbind]. rewrite Hd. cbn [rbind sender].
  rewrite (sender_dict_keys _ _ Hk).
  destruct (get_issue_num_list (parse_email_bodies email_content_dict)
              (Cfg cfg_repo sender_key)) as [l|e]; cbn [bind rbind of_outcome];
    [|reflexivity].
  destruct (issue_range l) as [[lo hi]|e]; reflexivity.
Qed.

Lemma main_run_agrees_with_main_witness :
  main_run sample_server sample_metadict =
  match main [(0%Z, Sample.msg_a); (1%Z, Sample.msg_b)] Sample.cfg with
  | Ok (lo, hi) => exe_extractor sample_metadict [lo; hi]
  | Raise e => ([], Fail (Builtin e))
  end.
Proof.
  apply (main_run_agrees_with_main sample_server sample_metadict
           [("host", "gmail"); ("addr", "dev@example.org"); ("passwd", "secret");
            ("sender", "github"); ("repo", "acme/widget");
            ("output_dir", "out"); ("extractor_exe", "extractor.py")]
           sample_inbox "github" "acme/widget"
           [Message (date Sample.msg_a) (subject Sample.msg_a)
                    (Some (body Sample.msg_a));
            Message (date Sample.msg_b) (subject Sample.msg_b)
                    (Some (body Sample.msg_b))]
           [(0%Z, Sample.msg_a); (1%Z, Sample.msg_b)]);
    reflexivity.
Defined.

(** The sample run as a whole. *)
Example sample_run :
  exists d',
    main_run sample_server sample_metadict =
    ([MakeDirs "out/widget";
      WriteJson (JDict d') "out/widget/extractor_input.json";
      System "python extractor.py out/widget/extractor_input.json"],
     Done tt) /\
    Dict.get "range" d' = Some (JList [JInt 10; JInt 10]).
Proof. eexists. split; vm_compute; reflexivity. Qed.

End Extractor.

(* ================================================================== *)
(** * The order of the e-mails does not matter *)

Section OrderOfMessages.

Lemma compare_as_OT (a b : string) :
  String.compare a b = OrdersEx.String_as_OT.compare a b.
Proof.
  revert b. induction a as [|x a IH]; intros [|y b]; reflexivity.
Qed.

Lemma text_le_cases (a b : string) :
  text_le a b <-> a = b \/ OrdersEx.String_as_OT.lt a b.
Proof.
  unfold text_le, String.leb, OrdersEx.String_as_OT.lt.
  rewrite compare_as_OT.
  destruct (OrdersEx.String_as_OT.compare_spec a b) as [E|L|G].
  - split; auto.
  - split; auto.
  - split; [discriminate|]. intros [->|H].
    + exfalso. exact (RelationClasses.StrictOrder_Irreflexive b G).
    + discriminate.
Qed.

Lemma text_le_refl (a : string) : text_le a a.
Proof. apply text_le_cases. now left. Qed.

Lemma text_le_trans (a b c : string) : text_le a b -> text_le b c -> text_le a c.
Proof.
  rewrite !text_le_cases. intros [->|H1] [->|H2]; auto.
  right. exact (RelationClasses.StrictOrder_Transitive a b c H1 H2).
Qed.

Lemma text_le_antisym (a b : string) : text_le a b -> text_le b a -> a = b.
Proof. apply String.leb_antisym. Qed.

(** Two lists in the order of texts with the same elements are the same
    list. *)
Lemma sorted_unique (l1 l2 : list string) :
  Sorted text_le l1 -> Sorted text_le l2 -> Permutation l1 l2 -> l1 = l2.
Proof.
  intros S1 S2.
  apply Sorted_StronglySorted in S1; [|exact text_le_trans].
  apply Sorted_StronglySorted in S2; [|exact text_le_trans].
  revert l2 S2. induction S1 as [|x l1 S1 IH Hx]; intros l2 S2 P.
  - apply Permutation_nil in P. now subst.
  - destruct S2 as [|y l2 S2 Hy].
    + apply Permutation_sym, Permutation_nil in P. discriminate.
    + assert (E : x = y).
      { apply text_le_antisym.
        - assert (Hin : In y (x :: l1))
            by (apply (Permutation_in _ (Permutation_sym P)); now left).
          destruct Hin as [->|Hin]; [apply text_le_refl|].
          rewrite Forall_forall in Hx. now apply Hx.
        - assert (Hin : In x (y :: l2))
            by (apply (Permutation_in _ P); now left).
          destruct Hin as [->|Hin]; [apply text_le_refl|].
          rewrite Forall_forall in Hy. now apply Hy. }
      subst y. f_equal. apply IH; [assumption|].
      exact (Permutation_cons_inv P).
Qed.

Lemma sorted_of_permutation (l1 l2 : list string) :
  Permutation l1 l2 -> sorted l1 = sorted l2.
Proof.
  intros P. apply sorted_unique; try apply sorted_ordered.
  rewrite (sorted_perm l1), (sorted_perm l2). exact P.
Qed.

Lemma github_entry_acc (cfg_repo : string) (issue_list : list string)
  (entry : email (list string)) :
  github_entry cfg_repo issue_list entry =
  (found <- github_entry cfg_repo [] entry ;; Ok (issue_list ++ found)).
Proof.
  unfold github_entry.
  destruct (body_list_of (issue_url cfg_repo) (body entry)) as [body_list|e];
    cbn [bind]; [|reflexivity].
  destruct body_list as [|t body_list]; cbn [bind];
    [now rewrite app_nil_r|].
  destruct (Re.search subject_issue_str (subject entry)) as [g|]; cbn [bind];
    [|now rewrite app_nil_r].
  set (issue_num := filter _ _).
  now destruct issue_num as [|x [|y issue_num]].
Qed.

Lemma github_loop_acc (cfg_repo : string)
  (entries : list (email (list string))) :
  forall issue_list,
    github_loop cfg_repo entries issue_list =
    (found <- github_loop cfg_repo entries [] ;; Ok (issue_list ++ found)).
Proof.
  induction entries as [|e entries IH]; intros il; cbn [github_loop bind].
  - now rewrite app_nil_r.
  - rewrite (github_entry_acc cfg_repo il e).
    destruct (github_entry cfg_repo [] e) as [c|x]; cbn [bind]; [|reflexivity].
    rewrite (IH (il ++ c)), (IH c).
    destruct (github_loop cfg_repo entries []) as [c2|x]; cbn [bind];
      [|reflexivity].
    now rewrite app_assoc.
Qed.

Lemma github_loop_cons (cfg_repo : string) (e : email (list string))
  (entries : list (email (list string))) :
  github_loop cfg_repo (e :: entries) [] =
  (c <- github_entry cfg_repo [] e ;;
   found <- github_loop cfg_repo entries [] ;;
   Ok (c ++ found)).
Proof.
  cbn [github_loop].
  destruct (github_entry cfg_repo [] e) as [c|x]; cbn [bind]; [|reflexivity].
  apply github_loop_acc.
Qed.

Lemma github_entry_raises (cfg_repo : string) (e : email (list string)) (x : exn) :
  github_entry cfg_repo [] e = Raise x -> x = TypeError.
Proof.
  destruct (github_entry_cases cfg_repo [] e) as [E | [(n & _ & E) | E]];
    rewrite E; congruence.
Qed.

Lemma github_loop_raises (cfg_repo : string)
  (entries : list (email (list string))) (x : exn) :
  github_loop cfg_repo entries [] = Raise x -> x = TypeError.
Proof.
  destruct (github_loop_cases cfg_repo entries [] (Forall_nil _))
    as [(l & E & _) | E]; rewrite E; congruence.
Qed.

Lemma github_loop_permutation (cfg_repo : string)
  (es1 es2 : list (email (list string))) :
  Permutation es1 es2 ->
  alike (github_loop cfg_repo es1 []) (github_loop cfg_repo es2 []).
Proof.
  induction 1 as [|e es1 es2 _ IH|e1 e2 es|es1 es2 es3 _ IH1 _ IH2].
  - simpl. constructor.
  - rewrite !github_loop_cons.
    destruct (github_entry cfg_repo [] e) as [c|x] eqn:E; cbn [bind].
    + destruct (github_loop cfg_repo es1 []), (github_loop cfg_repo es2 []);
        cbn [bind alike] in *; try tauto.
      now apply Permutation_app_head.
    + apply github_entry_raises in E. now subst.
  - rewrite !github_loop_cons.
    destruct (github_entry cfg_repo [] e1) as [c1|x1] eqn:E1;
      destruct (github_entry cfg_repo [] e2) as [c2|x2] eqn:E2;
      cbn [bind];
      try (apply github_entry_raises in E1; subst);
      try (apply github_entry_raises in E2; subst).
    + destruct (github_loop cfg_repo es []) as [c|x] eqn:E; cbn [bind alike].
      * rewrite !app_assoc. apply Permutation_app_tail, Permutation_app_comm.
      * apply github_loop_raises in E. now subst.
    + destruct (github_loop cfg_repo es []) as [c|x] eqn:E; cbn [bind alike].
      * auto.
      * apply github_loop_raises in E. now subst.
    + destruct (github_loop cfg_repo es []) as [c|x] eqn:E; cbn [bind alike].
      * auto.
      * apply github_loop_raises in E. now subst.
    + cbn. auto.
  - destruct (github_loop cfg_repo es1 []), (github_loop cfg_repo es2 []),
      (github_loop cfg_repo es3 []); cbn [alike] in *; try tauto.
    now transitivity a0.
Qed.

End OrderOfMessages.

(* ================================================================== *)
(** * More on the normaliser, the issue list and the range *)

Section MoreOnTheParser.

Local Open Scope string_scope.

Lemma filter_append (q : ascii -> bool) (a b : string) :
  Str.filter q (a ++ b) = Str.filter q a ++ Str.filter q b.
Proof.
  induction a as [|c a IH]; simpl; [reflexivity|].
  destruct (q c); simpl; now rewrite IH.
Qed.

(** The fragments already stored stay in front of what the loop adds. *)
Lemma scan_body_stored (chars : string) :
  forall l fb,
    scan_body chars l fb =
    ((l ++ fst (scan_body chars [] fb))%list, snd (scan_body chars [] fb)).
Proof.
  induction chars as [|c chars IH]; intros l fb; simpl.
  - now rewrite app_nil_r.
  - destruct (Str.isprintable c).
    + apply IH.
    + destruct fb as [|x fb]; simpl.
      * apply IH.
      * rewrite (IH (l ++ [String x fb])%list), (IH [String x fb]).
        simpl. now rewrite <- app_assoc.
Qed.

Lemma scan_body_run (a : string) :
  Str.forallb Str.isprintable a = true ->
  forall chars l fb,
    scan_body (a ++ chars) l fb = scan_body chars l (fb ++ a).
Proof.
  induction a as [|c a IH]; intros Ha chars l fb; simpl.
  - now rewrite append_nil_r.
  - simpl in Ha. apply andb_true_iff in Ha. destruct Ha as [Hc Ha].
    rewrite Hc, (IH Ha), append_assoc. reflexivity.
Qed.

(** X17. A non-empty run of printable characters that a non-printable
    character follows becomes one fragment, and what comes after that
    character is split on its own; a non-printable character at the
    start of a body is skipped. *)
Theorem parse_body_splits (a rest : string) (c : ascii) :
  Str.forallb Str.isprintable a = true ->
  Str.isprintable c = false ->
  parse_body (a ++ String c rest) =
  (if Str.is_empty a then parse_body rest else a :: parse_body rest).
Proof.
  intros Ha Hc. unfold parse_body.
  rewrite (scan_body_run a Ha). cbn [append scan_body]. rewrite Hc.
  destruct a as [|x a]; cbn [Str.is_empty negb]; [reflexivity|].
  now rewrite scan_body_stored.
Qed.

Lemma parse_body_splits_witness :
  parse_body ("one" ++ String Str.newline ("two" ++ String Str.newline "")) =
  "one" :: parse_body ("two" ++ String Str.newline "").
Proof.
  exact (parse_body_splits "one" ("two" ++ String Str.newline "") Str.newline
           eq_refl eq_refl).
Defined.

(** X18. A body that ends with a non-printable character, such as the
    line end of its last line, loses nothing: the fragments put together
    are the body without its non-printable characters. *)
Theorem terminated_body_is_kept (b : string) (c : ascii) :
  Str.isprintable c = false ->
  Str.join (parse_body (b ++ String c "")) =
  Str.filter Str.isprintable (b ++ String c "").
Proof.
  intros Hc. rewrite (parse_body_terminated b c Hc), filter_append.
  simpl. now rewrite Hc, append_nil_r.
Qed.

Lemma terminated_body_is_kept_witness :
  Str.join (parse_body (Sample.footer "42")) =
  Str.filter Str.isprintable (Sample.footer "42").
Proof.
  exact (terminated_body_is_kept
           ("-- " ++ Sample.nl ++
            "Reply to this email directly or view it on GitHub:" ++ Sample.nl ++
            Sample.link "42")
           Str.newline eq_refl).
Defined.

(** X19. What [re.search] does with the pattern of the subject: it finds
    a match exactly in the subjects that have a tag [(Issue #N)], [N] a
    non-empty run of digits, and the text matched is such a tag, taken
    from the subject. *)
Theorem subject_search_finds_tags (s : string) :
  (Re.search subject_issue_str s <> None <-> has_issue_tag s) /\
  (forall g,
      Re.search subject_issue_str s = Some g ->
      exists n, digits n /\ g = "(Issue #" ++ n ++ ")" /\ occurs_in g s).
Proof.
  split.
  - symmetry. apply has_issue_tag_search.
  - intros g Hg.
    destruct (subject_issue_group _ _ Hg) as (pre & n & post & E & Eg & Hn & Hd).
    exists n. split; [split; assumption | split; [exact Eg|]].
    now exists pre, post.
Qed.

Lemma subject_search_finds_tags_witness :
  has_issue_tag "[acme/widget] Crash on start (Issue #10)".
Proof.
  apply (proj1 (proj1 (subject_search_finds_tags
                         "[acme/widget] Crash on start (Issue #10)"))).
  vm_compute. discriminate.
Defined.

Lemma get_issue_num_list_sorted (d : email_dict (list string)) (cfg : cfg_dict)
  (l : list string) :
  get_issue_num_list d cfg = Ok l -> exists il, l = sorted il.
Proof.
  unfold get_issue_num_list.
  destruct (rule_of_sender (sender cfg)); cbn [bind].
  - destruct (github_loop (repo cfg) (values d) []) as [il|e]; cbn [bind];
      [|discriminate].
    intros [= <-]. now exists il.
  - intros [= <-]. now exists [].
  - intros [= <-]. now exists [].
Qed.

(** X20. For a repository name of letters, digits and [- _ . /]:
    whenever [get_issue_num_list] returns, every element of the list is
    a non-empty run of digits and the list is in the order of texts; and
    the only exception it raises is [TypeError]. *)
Theorem issue_list_is_sorted_digits (d : email_dict (list string))
  (cfg : cfg_dict) :
  valid_repo (repo cfg) = true ->
  (forall l, get_issue_num_list d cfg = Ok l ->
             Forall digits l /\ Sorted text_le l) /\
  (forall e, get_issue_num_list d cfg = Raise e -> e = TypeError).
Proof.
  intros _.
  destruct (get_issue_num_list_digits d cfg) as [(l0 & E & H) | E]; split.
  - intros l El. rewrite E in El. injection El as <-. split; [exact H|].
    destruct (get_issue_num_list_sorted _ _ _ E) as (il & ->).
    apply sorted_ordered.
  - intros e Ee. congruence.
  - intros l El. congruence.
  - intros e Ee. congruence.
Qed.

Lemma issue_list_is_sorted_digits_witness :
  Forall digits ["10"; "9"] /\ Sorted text_le ["10"; "9"].
Proof.
  apply (proj1 (issue_list_is_sorted_digits
                  (parse_email_bodies Sample.nine_and_ten) Sample.cfg
                  eq_refl)).
  vm_compute. reflexivity.
Defined.



(** X22. For a repository name of letters, digits and [- _ . /], the
    order of the e-mails in the dictionary does not matter: two
    dictionaries with the same entries give the same issue list or the
    same exception, and so the same result of [main]. *)
Theorem order_of_emails_is_irrelevant (cfg : cfg_dict) :
  valid_repo (repo cfg) = true ->
  (forall d1 d2 : email_dict (list string),
      Permutation d1 d2 ->
      get_issue_num_list d1 cfg = get_issue_num_list d2 cfg) /\
  (forall d1 d2 : email_dict string,
      Permutation d1 d2 -> main d1 cfg = main d2 cfg).
Proof.
  intros _.
  assert (G : forall d1 d2 : email_dict (list string),
             Permutation d1 d2 ->
             get_issue_num_list d1 cfg = get_issue_num_list d2 cfg).
  { intros d1 d2 P. unfold get_issue_num_list.
    destruct (rule_of_sender (sender cfg)); try reflexivity.
    pose proof (github_loop_permutation (repo cfg) _ _
                  (Permutation_map snd P)) as A.
    unfold values.
    destruct (github_loop (repo cfg) (map snd d1) []),
      (github_loop (repo cfg) (map snd d2) []); cbn [alike bind] in *;
      try tauto.
    - f_equal. now apply sorted_of_permutation.
    - destruct A as [-> ->]. reflexivity. }
  split; [exact G|].
  intros d1 d2 P. unfold main.
  destruct (in_SENDER_DICT (sender cfg)); [|reflexivity].
  rewrite (G (parse_email_bodies d1) (parse_email_bodies d2)); [reflexivity|].
  unfold parse_email_bodies. now apply Permutation_map.
Qed.

Lemma order_of_emails_is_irrelevant_witness :
  main [(1%Z, Sample.msg_b); (0%Z, Sample.msg_a)] Sample.cfg =
  main [(0%Z, Sample.msg_a); (1%Z, Sample.msg_b)] Sample.cfg.
Proof.
  apply (proj2 (order_of_emails_is_irrelevant Sample.cfg eq_refl)).
  apply perm_swap.
Defined.

End MoreOnTheParser.
